(** * A shallow embedding of the synchronisation engine of git-auto

    Sources: [src/gitsync.py] (the command-line tool) and [src/gitsync_gui.py]
    (the GUI tool).  Both drive [git] through [run_git], which returns a
    success flag and the combined, stripped output; both keep the registry in
    [data/repos.json].

    The outside world (git, the file system, the clock used for backup names)
    is kept abstract: a [Section] fixes an arbitrary world type and oracles
    for the git subprocess, [os.path.exists], [shutil.copytree] and the JSON
    codec, so every theorem holds for every behaviour of those collaborators.
    Python code is embedded in a state and exception monad whose state holds
    the world, the registry file and the trace of observable side effects.
    Log lines sent to the Tk widget ([self.root.after(...)], [print]) have no
    effect on the state and are omitted. *)

From Stdlib Require Import String Ascii List Bool NArith ZArith Lia Permutation.
Import ListNotations.
Open Scope string_scope.

(** ** Strings, as the code uses them *)

Module Str.

(** [s.lower()] on the byte string (ASCII case folding). *)
Definition lower_char (c : ascii) : ascii :=
  let n := nat_of_ascii c in
  if ((65 <=? n) && (n <=? 90))%nat then ascii_of_nat (n + 32)%nat else c.

Fixpoint lower (s : string) : string :=
  match s with
  | EmptyString => EmptyString
  | String c r => String (lower_char c) (lower r)
  end.

(** [needle in hay] for Python strings. *)
Fixpoint contains (needle hay : string) : bool :=
  if String.prefix needle hay then true
  else match hay with
       | EmptyString => false
       | String _ r => contains needle r
       end.

(** [s.split("/")]: split at every slash. *)
Fixpoint split_slash_aux (acc : string) (s : string) : list string :=
  match s with
  | EmptyString => [acc]
  | String c r =>
      if Ascii.eqb c "/"%char then acc :: split_slash_aux EmptyString r
      else split_slash_aux (acc ++ String c EmptyString) r
  end.

Definition split_slash (s : string) : list string := split_slash_aux EmptyString s.

(** Line boundaries of [str.splitlines()] that are single bytes:
    LF, CR, VT, FF, FS, GS, RS.  A CR LF pair yields an extra empty line
    here, which no caller can observe (callers only look at lines of length
    at least two). *)
Definition line_break (c : ascii) : bool :=
  let n := nat_of_ascii c in
  ((n =? 10) || (n =? 13) || (n =? 11) || (n =? 12) || (n =? 28) || (n =? 29) || (n =? 30))%nat.

Fixpoint splitlines_aux (acc : string) (s : string) : list string :=
  match s with
  | EmptyString => if String.eqb acc EmptyString then [] else [acc]
  | String c r =>
      if line_break c then acc :: splitlines_aux EmptyString r
      else splitlines_aux (acc ++ String c EmptyString) r
  end.

Definition splitlines (s : string) : list string := splitlines_aux EmptyString s.

(** [s.isdigit()] and [int(s)] on ASCII decimal digits. *)
Definition is_digit (c : ascii) : bool :=
  let n := nat_of_ascii c in ((48 <=? n) && (n <=? 57))%nat.

Fixpoint all_digits (s : string) : bool :=
  match s with
  | EmptyString => true
  | String c r => is_digit c && all_digits r
  end.

Definition isdigit (s : string) : bool :=
  negb (String.eqb s EmptyString) && all_digits s.

Fixpoint to_N_aux (acc : N) (s : string) : N :=
  match s with
  | EmptyString => acc
  | String c r => to_N_aux (acc * 10 + N.of_nat (nat_of_ascii c - 48)%nat)%N r
  end.

Definition to_N (s : string) : N := to_N_aux 0%N s.

(** Python truthiness of a [str | None]. *)
Definition truthy (o : option string) : bool :=
  match o with
  | Some s => negb (String.eqb s EmptyString)
  | None => false
  end.

End Str.

(** ** The registry data ([repos.json]) *)

(** One subscription record; each field is [None] when the key is absent. *)
Record Sub := mkSub {
  repo : option string;
  local_path : option string;
  branch : option string;
  added : option string;
  last_commit : option string;
  auto_update : option bool
}.

(** The top-level JSON object; only its ["subscriptions"] key is used. *)
Record Registry := mkRegistry { subscriptions : option (list Sub) }.

(** A value that [json.load] may return: an object, or any other JSON value
    (array, string, number, ...), on which [.get] and item assignment raise. *)
Inductive JVal := JDict (r : Registry) | JOther.

Definition empty_registry : Registry := mkRegistry (Some []).

(** [dict.get(key, default)] on the record fields. *)
Definition get_or {A} (d : A) (o : option A) : A :=
  match o with Some a => a | None => d end.

Definition set_last_commit (sha : string) (s : Sub) : Sub :=
  mkSub (repo s) (local_path s) (branch s) (added s) (Some sha) (auto_update s).

Definition set_auto_update (b : bool) (s : Sub) : Sub :=
  mkSub (repo s) (local_path s) (branch s) (added s) (last_commit s) (Some b).

(** [sub.get("repo") == repo_full]. *)
Definition repo_is (name : string) (s : Sub) : bool :=
  match repo s with Some r => String.eqb r name | None => false end.

(** ** Observable side effects *)

Inductive Event :=
| EvGit (cwd : string) (args : list string)   (** a [git] subprocess *)
| EvBackup (path : string)                    (** [_backup_local_folder(path)] *)
| EvSave (contents : string).                 (** [repos.json] rewritten *)

(** The steps a claim about recovery calls destructive or preparatory to a
    destructive reset: a backup copy, a [fetch], [reset --hard], [clean]. *)
Definition destructive (e : Event) : bool :=
  match e with
  | EvBackup _ => true
  | EvGit _ ("fetch" :: _) => true
  | EvGit _ ("reset" :: "--hard" :: _) => true
  | EvGit _ ("clean" :: _) => true
  | _ => false
  end.

Definition is_reset (e : Event) : bool :=
  match e with EvGit _ ("reset" :: "--hard" :: _) => true | _ => false end.

Definition is_backup (e : Event) : bool :=
  match e with EvBackup _ => true | _ => false end.


(** Python exceptions are results of their own. *)
Inductive res (A : Type) := Ret (a : A) | Exc (msg : string).
Arguments Ret {A} a.
Arguments Exc {A} msg.

(** [os.path.join(p, c)] (POSIX separator). *)
Definition path_join (p c : string) : string :=
  if String.eqb p "" then c
  else if String.eqb (String.substring (String.length p - 1) 1 p) "/" then p ++ c
  else p ++ "/" ++ c.

(** [f"https://{token}@github.com/{owner}/{repo_name}.git"] *)
Definition token_url (token owner name : string) : string :=
  "https://" ++ token ++ "@github.com/" ++ owner ++ "/" ++ name ++ ".git".

(** [f"https://github.com/{owner}/{repo_name}.git"] *)
Definition clean_url (owner name : string) : string :=
  "https://github.com/" ++ owner ++ "/" ++ name ++ ".git".

(** The world outside the program and the collaborators acting on it. *)
Record Env (World : Type) := mkEnv {
  (** [subprocess.run(["git"] + args, cwd=cwd)]: success flag and output. *)
  git_oracle : string -> list string -> World -> bool * string * World;
  (** [os.path.exists(path)] *)
  path_exists : string -> World -> bool;
  (** [shutil.copytree(path, f"{path}_backup_{timestamp}")]: [true] and the
      backup path, or [false] and the text of the exception. *)
  copytree : string -> World -> bool * string * World;
  (** [json.load]: [None] when the content does not parse. *)
  parse_json : string -> option JVal;
  (** [json.dump(data, f, ensure_ascii=False, indent=2)] *)
  dump_json : Registry -> string
}.
Arguments git_oracle {World} e.
Arguments path_exists {World} e.
Arguments copytree {World} e.
Arguments parse_json {World} e.
Arguments dump_json {World} e.

(** ** Parsing user input and the [.env] file (gitsync.py, gitsync_gui.py) *)

Module Text.

(** The ASCII characters [str.isspace] accepts: TAB, LF, VT, FF, CR, the
    separators FS, GS, RS, US, and SPACE.  Strings are byte strings here, so
    non-ASCII white space (U+00A0, ...) is not stripped: the embedding
    is exact for ASCII input. *)
Definition is_space (c : ascii) : bool :=
  let n := nat_of_ascii c in
  ((9 <=? n) && (n <=? 13) || (28 <=? n) && (n <=? 32))%nat.

Fixpoint lstrip (s : string) : string :=
  match s with
  | EmptyString => EmptyString
  | String c r => if is_space c then lstrip r else s
  end.

Fixpoint rstrip (s : string) : string :=
  match s with
  | EmptyString => EmptyString
  | String c r =>
      let r' := rstrip r in
      if is_space c && String.eqb r' EmptyString then EmptyString else String c r'
  end.

(** [s.strip()] *)
Definition strip (s : string) : string := rstrip (lstrip s).

(** [s[len(p):]] when [s.startswith(p)]. *)
Definition strip_prefix (p s : string) : option string :=
  if String.prefix p s then Some (String.substring (String.length p) (String.length s - String.length p) s)
  else None.

(** [s.endswith(".git")] *)
Definition ends_with_git (s : string) : bool :=
  (4 <=? String.length s)%nat
  && String.eqb (String.substring (String.length s - 4) 4 s) ".git".

(** [s.removesuffix(".git")] *)
Definition removesuffix_git (s : string) : string :=
  if ends_with_git s then String.substring 0 (String.length s - 4) s else s.

Definition newline (c : ascii) : bool := Ascii.eqb c (ascii_of_nat 10).

Fixpoint no_newline (s : string) : bool :=
  match s with
  | EmptyString => true
  | String c r => negb (newline c) && no_newline r
  end.

(** The matcher of the URL pattern of [parse_repo_input] (the scheme
    [https://] or [http://] and the host [github.com/], an owner group
    [[^/]+], a slash, a lazy repository group [[^/]+?], an optional [.git],
    an optional slash followed by any characters, then the end) on a
    stripped string, which has no trailing newline before which the end
    anchor could also match.  The owner group reaches the first slash.  The
    lazy repository group takes the shortest non-empty prefix of the next
    slash-free segment [seg] after which the rest of the pattern matches:
    [seg] without its final [.git] when [seg] is longer than four bytes and
    ends in [.git], else [seg].  In both cases what follows [seg] must be
    empty or a slash followed by text without a newline (the dot of the
    pattern stops at newlines). *)
Definition match_github_url (rest : string) : option (string * string) :=
  match Str.split_slash rest with
  | owner :: seg :: tail =>
      if String.eqb owner "" || String.eqb seg "" then None
      else if negb (forallb no_newline tail) then None
      else Some (owner,
                 if (4 <? String.length seg)%nat && ends_with_git seg
                 then String.substring 0 (String.length seg - 4) seg else seg)
  | _ => None
  end.

(** [parse_repo_input(repo_input)] of gitsync.py; [None] is the
    [sys.exit(1)] after the error message. *)
Definition parse_repo_input (repo_input : string) : option (string * string) :=
  let s := strip repo_input in
  let url := match strip_prefix "https://github.com/" s with
             | Some r => match_github_url r
             | None => match strip_prefix "http://github.com/" s with
                       | Some r => match_github_url r
                       | None => None
                       end
             end in
  match url with
  | Some (owner, repo) => Some (owner, removesuffix_git repo)
  | None =>
      match Str.split_slash s with
      | [o; n] => if String.eqb o "" || String.eqb n "" then None else Some (o, n)
      | _ => None
      end
  end.

(** Lines of a text file opened in text mode: universal newlines turn
    CR LF and CR into LF.  Splitting at both CR and LF yields the same
    lines, plus empty ones, which [load_config] skips. *)
Definition line_end (c : ascii) : bool :=
  Ascii.eqb c (ascii_of_nat 10) || Ascii.eqb c (ascii_of_nat 13).

Fixpoint file_lines_aux (acc s : string) : list string :=
  match s with
  | EmptyString => [acc]
  | String c r => if line_end c then acc :: file_lines_aux EmptyString r
                  else file_lines_aux (acc ++ String c EmptyString) r
  end.

Definition file_lines (s : string) : list string := file_lines_aux EmptyString s.

(** [line.split("=", 1)] on a line that contains ["="]. *)
Fixpoint split_eq_aux (acc s : string) : string * string :=
  match s with
  | EmptyString => (acc, EmptyString)
  | String c r => if Ascii.eqb c "="%char then (acc, r)
                  else split_eq_aux (acc ++ String c EmptyString) r
  end.

Definition split_eq (s : string) : string * string := split_eq_aux EmptyString s.

End Text.

(** The settings of the [.env] file. *)
Record EnvConfig := mkEnvConfig {
  GITHUB_USER : string;
  GITHUB_TOKEN : string;
  CLONE_BASE_PATH : string
}.

Definition default_config : EnvConfig := mkEnvConfig "" "" "".

(** [if key in config: config[key] = value] *)
Definition config_set (key value : string) (c : EnvConfig) : EnvConfig :=
  if String.eqb key "GITHUB_USER" then mkEnvConfig value (GITHUB_TOKEN c) (CLONE_BASE_PATH c)
  else if String.eqb key "GITHUB_TOKEN" then mkEnvConfig (GITHUB_USER c) value (CLONE_BASE_PATH c)
  else if String.eqb key "CLONE_BASE_PATH" then mkEnvConfig (GITHUB_USER c) (GITHUB_TOKEN c) value
  else c.

(** One iteration of the loop over the file's lines. *)
Definition config_line (c : EnvConfig) (raw : string) : EnvConfig :=
  let line := Text.strip raw in
  if negb (String.eqb line "") && Str.contains "=" line && negb (String.prefix "#" line) then
    let '(key, value) := Text.split_eq line in
    config_set (Text.strip key) (Text.strip value) c
  else c.

(** [load_config()] of gitsync.py (which exits when the file is missing)
    and [load_env_config()] of gitsync_gui.py (which then keeps the
    defaults), on the file's content. *)
Definition load_env_config (content : option string) : EnvConfig :=
  match content with
  | None => default_config
  | Some text => fold_left config_line (Text.file_lines text) default_config
  end.

(** A string without ["/"]. *)
Definition no_slash (s : string) : Prop := forall i, String.get i s <> Some "/"%char.

(** A string without line ends: it stays one line of [splitlines]. *)
Definition one_line (s : string) : Prop :=
  forall i c, String.get i s = Some c -> Text.line_end c = false.

(** Boolean checks for the two properties above. *)
Fixpoint no_slash_b (s : string) : bool :=
  match s with
  | EmptyString => true
  | String c r => negb (Ascii.eqb c "/") && no_slash_b r
  end.

Fixpoint one_line_b (s : string) : bool :=
  match s with
  | EmptyString => true
  | String c r => negb (Text.line_end c) && one_line_b r
  end.

(** ** A concrete world for evaluating the code on examples

    The world is the number of [git pull] runs so far.  The first [fails]
    pulls fail with output [msg]; later ones succeed.  [behind] and [ahead]
    are the outputs of the two [git rev-list --count] calls; every path
    exists and every other command succeeds. *)
Definition ex_git (fails : nat) (msg behind ahead : string)
           (cwd : string) (args : list string) (w : nat) : bool * string * nat :=
  match args with
  | "pull" :: _ => if Nat.ltb w fails then (false, msg, S w)
                   else (true, "Already up to date.", S w)
  | ["rev-parse"; "HEAD"] => (true, "1111111aaaa", w)
  | "rev-parse" :: _ => (true, "2222222bbbb", w)
  | ["rev-list"; "--count"; "HEAD..origin/main"] => (true, behind, w)
  | "rev-list" :: _ => (true, ahead, w)
  | "merge" :: _ => (false, "fatal: There is no merge to abort (MERGE_HEAD missing).", w)
  | _ => (true, "", w)
  end.

Definition ex_sub (name : string) (flag : option bool) : Sub :=
  mkSub (Some name) (Some ("/repos/" ++ name)) (Some "main") None None flag.

Definition ex_registry : Registry :=
  mkRegistry (Some [ex_sub "acme/widgets" (Some true); ex_sub "acme/gadgets" (Some false)]).

(** [json.load] knows one document, ["REG"]; [json.dump] writes ["DUMP"]. *)
Definition ex_parse (c : string) : option JVal :=
  if String.eqb c "REG" then Some (JDict ex_registry)
  else if String.eqb c "[]" then Some JOther else None.

Definition ex_env (fails : nat) (msg behind ahead : string) : Env nat :=
  mkEnv nat (ex_git fails msg behind ahead) (fun _ _ => true)
        (fun p w => (true, p ++ "_backup_20261018_120000", w))
        ex_parse (fun _ => "DUMP").

Definition CONFLICT_MSG : string :=
  "error: Pulling is not possible because you have unmerged files.".

Definition UNRELATED_MSG : string := "fatal: refusing to merge unrelated histories".

Definition AUTH_MSG : string := "fatal: Authentication failed".
Definition W_lp : string := "/repos/acme/widgets".
Definition W_auth : Env nat := ex_env 5 AUTH_MSG "1" "0".
Definition ev_pull : Event := EvGit W_lp ["pull"; "origin"; "main"].
Definition ev_status : Event := EvGit W_lp ["status"; "--porcelain"].
Definition ev_abort : Event := EvGit W_lp ["merge"; "--abort"].
Definition ev_status_sb : Event := EvGit W_lp ["status"; "-sb"].

Definition W_conflict : Env nat := ex_env 5 CONFLICT_MSG "1" "1".


(** The event [git cmd ...] run in [p]. *)
Definition git_in (p cmd : string) (e : Event) : bool :=
  match e with
  | EvGit c (a :: _) => String.eqb c p && String.eqb a cmd
  | _ => false
  end.

Definition TOKEN : string := "ghp_0123456789abcdef".

Definition toggle_env : Env nat := ex_env 0 "" "0" "0".
Definition ex_subs : list Sub := get_or [] (subscriptions ex_registry).

(** Folder operations of the example world: deleting and creating
    folders succeed and leave the pull counter alone; [rmtree] is marked by
    adding 100. *)
Definition ex_delete_tree (p : string) (w : nat) : bool * string * nat := (true, "", w).
Definition ex_make_dirs (p : string) (w : nat) : option nat := Some w.
Definition ex_rmtree (p : string) (w : nat) : nat := w + 100.

(** A record whose name has three parts. *)
Definition ex_bad_sub : Sub := ex_sub "acme/widgets/extra" (Some true).

(** Two enabled records (one without the key) and a disabled one, in the
    order the tree shows them. *)
Definition ex_three : list Sub :=
  [ex_sub "acme/a" (Some true); ex_sub "acme/b" None; ex_sub "acme/c" (Some false)].

Section Engine.

Context {World : Type}.
Variable env : Env World.

Record St := mkSt {
  world : World;
  repos_file : option string;   (** content of [REPOS_FILE], [None] if absent *)
  trace : list Event
}.

Definition M (A : Type) := St -> res A * St.

Definition ret {A} (a : A) : M A := fun s => (Ret a, s).

Definition bind {A B} (m : M A) (k : A -> M B) : M B :=
  fun s => match m s with
           | (Ret a, s') => k a s'
           | (Exc e, s') => (Exc e, s')
           end.

Definition raise {A} (e : string) : M A := fun s => (Exc e, s).

(** [try: m except Exception: h] *)
Definition try_except {A} (m : M A) (h : M A) : M A :=
  fun s => match m s with
           | (Exc _, s') => h s'
           | r => r
           end.

Notation "x <- m ;; k" := (bind m (fun x => k))
  (at level 61, m at next level, right associativity).
Notation "' p <- m ;; k" := (bind m (fun x => match x with p => k end))
  (at level 61, p pattern, m at next level, right associativity).
Notation "m ;;; k" := (bind m (fun _ => k))
  (at level 61, right associativity).

Definition emit (e : Event) : M unit :=
  fun s => (Ret tt, mkSt (world s) (repos_file s) (trace s ++ [e])).

(** [run_git(args, cwd)] *)
Definition run_git (args : list string) (cwd : string) : M (bool * string) :=
  fun s => let '(ok, out, w') := git_oracle env cwd args (world s) in
           (Ret (ok, out), mkSt w' (repos_file s) (trace s ++ [EvGit cwd args])).

Definition exists_path (p : string) : M bool :=
  fun s => (Ret (path_exists env p (world s)), s).

(** [owner, repo_name = repo.split("/")]: raises unless exactly two parts. *)
Definition split_repo (r : string) : M (string * string) :=
  match Str.split_slash r with
  | [o; n] => ret (o, n)
  | _ => raise "ValueError"
  end.

(** ** Registry store (identical in both files) *)

(** [load_repos()] *)
Definition load_repos : M JVal :=
  fun s => match repos_file s with
           | None => (Ret (JDict empty_registry), s)
           | Some c => match parse_json env c with
                       | Some v => (Ret v, s)
                       | None => (Ret (JDict empty_registry), s)
                       end
           end.

(** [save_repos(data)]: full overwrite. *)
Definition save_repos (r : Registry) : M unit :=
  fun s => (Ret tt, mkSt (world s) (Some (dump_json env r))
                         (trace s ++ [EvSave (dump_json env r)])).

(** [repos_data.get("subscriptions", [])]; [.get] raises on a non-object. *)
Definition get_subscriptions (v : JVal) : M (list Sub) :=
  match v with
  | JDict r => ret (get_or [] (subscriptions r))
  | JOther => raise "AttributeError"
  end.

(** [repos_data["subscriptions"] = subs] *)
Definition with_subscriptions (v : JVal) (subs : list Sub) : M Registry :=
  match v with
  | JDict _ => ret (mkRegistry (Some subs))
  | JOther => raise "TypeError"
  end.

(** A change made in place to the list object that [repos_data.get(
    "subscriptions", [])] returned: it reaches the saved dictionary only when
    the key was present (otherwise the list was a fresh default). *)
Definition update_in_place (v : JVal) (f : list Sub -> list Sub) : M Registry :=
  match v with
  | JDict r => ret (mkRegistry (option_map f (subscriptions r)))
  | JOther => raise "AttributeError"
  end.

(** [find_subscription] (first match) *)
Definition find_subscription (subs : list Sub) (repo_full : string) : option Sub :=
  find (repo_is repo_full) subs.

(** Set ["last_commit"] on the first record named [repo_full]. *)
Fixpoint update_first (repo_full sha : string) (subs : list Sub) : list Sub :=
  match subs with
  | [] => []
  | x :: r => if repo_is repo_full x then set_last_commit sha x :: r
              else x :: update_first repo_full sha r
  end.

(** [remove_subscription(owner, repo_name)] (gitsync.py) *)
Definition remove_subscription (owner name : string) : M bool :=
  v <- load_repos ;;
  let repo_full := owner ++ "/" ++ name in
  subs <- get_subscriptions v ;;
  let original_len := length subs in
  let kept := filter (fun x => negb (repo_is repo_full x)) subs in
  r <- with_subscriptions v kept ;;
  if Nat.ltb (length kept) original_len then save_repos r ;;; ret true
  else ret false.

(** [update_last_commit(owner, repo_name, sha)] (gitsync.py) *)
Definition update_last_commit (owner name sha : string) : M unit :=
  v <- load_repos ;;
  subs <- get_subscriptions v ;;
  let repo_full := owner ++ "/" ++ name in
  match find_subscription subs repo_full with
  | Some _ => r <- update_in_place v (update_first repo_full sha) ;; save_repos r
  | None => ret tt
  end.

(** ** Git helpers shared by both tools *)

(** [is_merge_conflict_error] of gitsync.py *)
Definition is_merge_conflict_error (git_output : string) : bool :=
  if String.eqb git_output "" then false
  else let text := Str.lower git_output in
       Str.contains "unmerged" text
       || Str.contains "unmerged files" text
       || Str.contains "fix conflicts" text
       || Str.contains "unresolved conflict" text
       || Str.contains "you have unmerged paths" text.

(** [is_merge_conflict_error] of gitsync_gui.py *)
Definition is_merge_conflict_error_gui (git_output : string) : bool :=
  if String.eqb git_output "" then false
  else let text := Str.lower git_output in
       Str.contains "unmerged" text
       || Str.contains "unmerged files" text
       || Str.contains "fix conflicts" text
       || Str.contains "unresolved conflict" text
       || Str.contains "you have unmerged paths" text
       || Str.contains "unrelated histories" text.

(** [line[:2] in {"UU", "AA", "DD", "AU", "UA", "DU", "UD"}] *)
Definition unmerged_code (line : string) : bool :=
  (2 <=? String.length line)%nat &&
  existsb (String.eqb (String.substring 0 2 line))
          ["UU"; "AA"; "DD"; "AU"; "UA"; "DU"; "UD"].

(** [has_unmerged_paths(repo_path)] (identical in both files) *)
Definition has_unmerged_paths (repo_path : string) : M bool :=
  '(success, output) <- run_git ["status"; "--porcelain"] repo_path ;;
  if negb success then ret false
  else ret (existsb unmerged_code (Str.splitlines output)).

(** [get_local_commit(repo_path)] *)
Definition get_local_commit (repo_path : string) : M (option string) :=
  '(success, output) <- run_git ["rev-parse"; "HEAD"] repo_path ;;
  ret (if success then Some output else None).

(** [get_remote_commit(repo_path, branch)] *)
Definition get_remote_commit (repo_path branch : string) : M (option string) :=
  '(success, output) <- run_git ["rev-parse"; "origin/" ++ branch] repo_path ;;
  ret (if success then Some output else None).

(** [get_behind_ahead_count(repo_path, branch)] (gitsync_gui.py) *)
Definition get_behind_ahead_count (repo_path branch : string) : M (N * N) :=
  '(ok1, out1) <- run_git ["rev-list"; "--count"; "HEAD..origin/" ++ branch] repo_path ;;
  let behind := if ok1 && Str.isdigit out1 then Str.to_N out1 else 0%N in
  '(ok2, out2) <- run_git ["rev-list"; "--count"; "origin/" ++ branch ++ "..HEAD"] repo_path ;;
  let ahead := if ok2 && Str.isdigit out2 then Str.to_N out2 else 0%N in
  ret (behind, ahead).

(** [abort_merge(repo_path)] / [GitSyncGUI._abort_merge] *)
Definition abort_merge (repo_path : string) : M (bool * string) :=
  run_git ["merge"; "--abort"] repo_path.

(** [hard_reset_to_remote] / [GitSyncGUI._hard_reset_to_remote] *)
Definition hard_reset_to_remote (repo_path branch : string) : M (bool * string) :=
  '(ok, out) <- run_git ["reset"; "--hard"; "origin/" ++ branch] repo_path ;;
  if negb ok then ret (ok, out)
  else '(ok2, out2) <- run_git ["clean"; "-fd"] repo_path ;;
       if negb ok2 then ret (ok2, out2)
       else ret (true, out ++ String (ascii_of_nat 10) EmptyString ++ out2).

(** ** The command-line tool (gitsync.py) *)

(** [_set_remote_url_with_token] *)
Definition set_remote_url_with_token (repo_full repo_path token : string) : M unit :=
  if String.eqb token "" then ret tt
  else try_except
         ('(owner, name) <- split_repo repo_full ;;
          run_git ["remote"; "set-url"; "origin"; token_url token owner name] repo_path ;;;
          ret tt)
         (ret tt).

(** [_restore_remote_url] *)
Definition restore_remote_url (repo_full repo_path token : string) : M unit :=
  if String.eqb token "" then ret tt
  else try_except
         ('(owner, name) <- split_repo repo_full ;;
          run_git ["remote"; "set-url"; "origin"; clean_url owner name] repo_path ;;;
          ret tt)
         (ret tt).

(** [pull_with_token] *)
Definition pull_with_token (repo_full repo_path branch token : string) : M (bool * string) :=
  set_remote_url_with_token repo_full repo_path token ;;;
  r <- run_git ["pull"; "origin"; branch] repo_path ;;
  restore_remote_url repo_full repo_path token ;;;
  ret r.

(** [fetch_with_token] *)
Definition fetch_with_token (repo_full repo_path token : string) : M (bool * string) :=
  set_remote_url_with_token repo_full repo_path token ;;;
  r <- run_git ["fetch"; "origin"] repo_path ;;
  restore_remote_url repo_full repo_path token ;;;
  ret r.

(** The test [is_merge_conflict_error(out) or has_unmerged_paths(path)],
    with Python's short-circuit [or]. *)
Definition conflict_or_unmerged (classify : string -> bool) (out repo_path : string) : M bool :=
  if classify out then ret true else has_unmerged_paths repo_path.

(** [auto_recover_and_pull] *)
Definition auto_recover_and_pull (repo_full repo_path branch token : string) : M (bool * string) :=
  abort_merge repo_path ;;;
  '(ok_pull, out_pull) <- pull_with_token repo_full repo_path branch token ;;
  if ok_pull then ret (true, out_pull) else
  c <- conflict_or_unmerged is_merge_conflict_error out_pull repo_path ;;
  if negb c then ret (false, out_pull) else
  '(ok_fetch, out_fetch) <- fetch_with_token repo_full repo_path token ;;
  if negb ok_fetch then ret (false, "fetch 실패: " ++ out_fetch) else
  '(ok_reset, out_reset) <- hard_reset_to_remote repo_path branch ;;
  if negb ok_reset then ret (false, "reset/clean 실패: " ++ out_reset) else
  run_git ["checkout"; "-f"; branch] repo_path ;;;
  pull_with_token repo_full repo_path branch token.

(** A result dictionary [{"status": ..., "message": ...}]. *)
Record SyncResult := mkResult { status : string; message : string }.

(** Lines 322-347 of [sync_repository]: the update once the local and
    remote commits are known to differ. *)
Definition sync_repository_update (repo_full owner name local_path branch token
                                   local_commit remote_commit : string) : M SyncResult :=
  '(success, output) <- pull_with_token repo_full local_path branch token ;;
  if negb success then
    c <- conflict_or_unmerged is_merge_conflict_error output local_path ;;
    if c then
      '(ok2, out2) <- auto_recover_and_pull repo_full local_path branch token ;;
      if negb ok2 then ret (mkResult "error" ("자동 복구 실패: " ++ out2))
      else
        new_commit <- get_local_commit local_path ;;
        (if Str.truthy new_commit
         then update_last_commit owner name (get_or "" new_commit) else ret tt) ;;;
        ret (mkResult "updated" "자동 복구 후 업데이트 완료")
    else ret (mkResult "error" ("pull 실패: " ++ output))
  else
    new_commit <- get_local_commit local_path ;;
    (if Str.truthy new_commit
     then update_last_commit owner name (get_or "" new_commit) else ret tt) ;;;
    ret (mkResult "updated"
           (String.substring 0 7 local_commit ++ " → " ++ String.substring 0 7 remote_commit)).

(** [sync_repository(sub, token)] *)
Definition sync_repository (sub : Sub) (token : string) : M SyncResult :=
  let repo_full := get_or "" (repo sub) in
  let lp := get_or "" (local_path sub) in
  let br := get_or "main" (branch sub) in
  e <- exists_path lp ;;
  if negb e then ret (mkResult "missing" "로컬 폴더 없음") else
  g <- exists_path (path_join lp ".git") ;;
  if negb g then ret (mkResult "error" "Git 저장소 아님") else
  '(owner, name) <- split_repo repo_full ;;
  (if String.eqb token "" then ret tt
   else run_git ["remote"; "set-url"; "origin"; token_url token owner name] lp ;;; ret tt) ;;;
  '(success, output) <- fetch_with_token repo_full lp token ;;
  if negb success then ret (mkResult "error" ("fetch 실패: " ++ output)) else
  local_commit <- get_local_commit lp ;;
  remote_commit <- get_remote_commit lp br ;;
  if negb (Str.truthy local_commit) || negb (Str.truthy remote_commit)
  then ret (mkResult "error" "커밋 정보 확인 실패") else
  let lc := get_or "" local_commit in
  let rc := get_or "" remote_commit in
  if String.eqb lc rc then ret (mkResult "up-to-date" "최신 상태")
  else sync_repository_update repo_full owner name lp br token lc rc.

(** [for sub in subscriptions: result = sync_repository(sub, token)] *)
Fixpoint sync_each (subs : list Sub) (token : string) : M (list (string * SyncResult)) :=
  match subs with
  | [] => ret []
  | sub :: rest =>
      r <- sync_repository sub token ;;
      rs <- sync_each rest token ;;
      ret ((get_or "알 수 없음" (repo sub), r) :: rs)
  end.

(** [sync_all()] from the point where the token is known ([load_config] reads
    the [.env] file and is outside the engine); the per-repository results
    that the loop prints, in order. *)
Definition sync_all (token : string) : M (list (string * SyncResult)) :=
  v <- load_repos ;;
  subs <- get_subscriptions v ;;
  match subs with
  | [] => ret []
  | _ => sync_each subs token
  end.

(** ** The GUI tool (gitsync_gui.py) *)

(** [GitSyncGUI._pull_with_token] *)
Definition gui_pull_with_token (repo_full repo_path branch token : string) : M (bool * string) :=
  (if String.eqb token "" then ret tt
   else try_except
          ('(owner, name) <- split_repo repo_full ;;
           run_git ["remote"; "set-url"; "origin"; token_url token owner name] repo_path ;;;
           ret tt)
          (ret tt)) ;;;
  r <- run_git ["pull"; "origin"; branch] repo_path ;;
  (if String.eqb token "" then ret tt
   else try_except
          ('(owner, name) <- split_repo repo_full ;;
           run_git ["remote"; "set-url"; "origin"; clean_url owner name] repo_path ;;;
           ret tt)
          (ret tt)) ;;;
  ret r.

Definition NO_FOLDER : string := "(폴더 없음)".

(** [GitSyncGUI._backup_local_folder]; the call is recorded as [EvBackup]. *)
Definition gui_backup_local_folder (repo_path : string) : M (bool * string) :=
  emit (EvBackup repo_path) ;;;
  e <- exists_path repo_path ;;
  if negb e then ret (true, NO_FOLDER)
  else fun s => let '(ok, out, w') := copytree env repo_path (world s) in
                (Ret (ok, out), mkSt w' (repos_file s) (trace s)).

(** [GitSyncGUI._log_git_status_summary] (its log lines omitted) *)
Definition gui_log_git_status_summary (repo_path : string) : M unit :=
  run_git ["status"; "-sb"] repo_path ;;;
  run_git ["status"; "--porcelain"] repo_path ;;;
  ret tt.

(** [GitSyncGUI._auto_recover_and_pull] *)
Definition gui_auto_recover_and_pull (repo_full repo_path branch token : string) : M (bool * string) :=
  gui_log_git_status_summary repo_path ;;;
  abort_merge repo_path ;;;
  '(ok_pull, out_pull) <- gui_pull_with_token repo_full repo_path branch token ;;
  if ok_pull then ret (true, out_pull) else
  c <- conflict_or_unmerged is_merge_conflict_error_gui out_pull repo_path ;;
  if negb c then ret (false, out_pull) else
  gui_backup_local_folder repo_path ;;;
  '(ok_fetch, out_fetch) <- run_git ["fetch"; "origin"] repo_path ;;
  if negb ok_fetch then ret (false, "fetch 실패: " ++ out_fetch) else
  '(ok_reset, out_reset) <- hard_reset_to_remote repo_path branch ;;
  if negb ok_reset then ret (false, "reset/clean 실패: " ++ out_reset) else
  run_git ["checkout"; "-f"; branch] repo_path ;;;
  gui_pull_with_token repo_full repo_path branch token.

(** The block [repos_data = load_repos(); for s in repos_data.get(
    "subscriptions", []): ... s["last_commit"] = new_commit; break;
    save_repos(repos_data)] of [_check_and_update_single_thread]. *)
Definition gui_store_last_commit (repo_full sha : string) : M unit :=
  v <- load_repos ;;
  get_subscriptions v ;;;
  r <- update_in_place v (update_first repo_full sha) ;;
  save_repos r.

(** [next((s for s in self.subscriptions if s.get("repo") == repo), None)] *)
Definition lookup_sub (subs : list Sub) (r : string) : option Sub :=
  find (repo_is r) subs.

(** Steps 1-4 of [_check_and_update_single_thread]: existence checks, fetch
    with the token window, commit resolution and the behind/ahead counts.
    [None] is one of the early [return]s. *)
Definition single_probe (subs : list Sub) (r token : string)
  : M (option (string * string * string * string * N * N)) :=
  match lookup_sub subs r with
  | None => ret None
  | Some sub =>
    let lp := get_or "" (local_path sub) in
    let br := get_or "main" (branch sub) in
    e <- exists_path lp ;;
    if negb e then ret None else
    g <- exists_path (path_join lp ".git") ;;
    if negb g then ret None else
    (if String.eqb token "" then ret tt
     else '(owner, name) <- split_repo r ;;
          run_git ["remote"; "set-url"; "origin"; token_url token owner name] lp ;;; ret tt) ;;;
    '(success, output) <- run_git ["fetch"; "origin"] lp ;;
    (if String.eqb token "" then ret tt
     else '(owner, name) <- split_repo r ;;
          run_git ["remote"; "set-url"; "origin"; clean_url owner name] lp ;;; ret tt) ;;;
    if negb success then ret None else
    local_commit <- get_local_commit lp ;;
    remote_commit <- get_remote_commit lp br ;;
    if negb (Str.truthy local_commit) || negb (Str.truthy remote_commit) then ret None else
    '(behind, ahead) <- get_behind_ahead_count lp br ;;
    ret (Some (lp, br, get_or "" local_commit, get_or "" remote_commit, behind, ahead))
  end.

(** Step 4 onwards of [_check_and_update_single_thread]: the dispatch on
    [(behind, ahead)]. *)
Definition single_act (r lp br token : string) (behind ahead : N) : M unit :=
  if (behind =? 0)%N && (ahead =? 0)%N then ret tt
  else if (behind =? 0)%N && (0 <? ahead)%N then
    gui_backup_local_folder lp ;;;
    '(ok_reset, _) <- hard_reset_to_remote lp br ;;
    if negb ok_reset then ret tt else
    new_commit <- get_local_commit lp ;;
    if Str.truthy new_commit then gui_store_last_commit r (get_or "" new_commit) else ret tt
  else
    '(success, output) <- gui_pull_with_token r lp br token ;;
    if success then
      new_commit <- get_local_commit lp ;;
      (if Str.truthy new_commit then gui_store_last_commit r (get_or "" new_commit) else ret tt)
    else
      c <- conflict_or_unmerged is_merge_conflict_error_gui output lp ;;
      if c then
        '(ok2, _) <- gui_auto_recover_and_pull r lp br token ;;
        if ok2 then
          new_commit <- get_local_commit lp ;;
          (if Str.truthy new_commit then gui_store_last_commit r (get_or "" new_commit) else ret tt)
        else ret tt
      else ret tt.

(** [GitSyncGUI._check_and_update_single_thread(repo)] *)
Definition check_and_update_single (subs : list Sub) (r token : string) : M unit :=
  p <- single_probe subs r token ;;
  match p with
  | None => ret tt
  | Some (lp, br, _, _, behind, ahead) => single_act r lp br token behind ahead
  end.

(** An entry of [self.check_results]; absent keys are [None]. *)
Record CheckResult := mkCheck {
  c_status : string;
  c_message : option string;
  c_local : option string;
  c_remote : option string;
  c_ahead : option N;
  c_behind : option N
}.

Definition simple_check (st msg : string) : CheckResult :=
  mkCheck st (Some msg) None None None None.

(** The [if behind == 0 and ahead == 0: ... elif ... else ...] block of
    [_check_selected_updates_thread]. *)
Definition classify_selected (behind ahead : N) (local remote : string) : CheckResult :=
  if (behind =? 0)%N && (ahead =? 0)%N then
    mkCheck "up-to-date" None (Some local) (Some remote) None None
  else if (behind =? 0)%N && (0 <? ahead)%N then
    mkCheck "update-available" None (Some local) (Some remote) (Some ahead) None
  else
    mkCheck "update-available" None (Some local) (Some remote) None (Some behind).

(** [auto_update = sub.get("auto_update", True)] *)
Definition auto_flag (sub : Sub) : bool := get_or true (auto_update sub).

Definition SKIPPED : CheckResult := simple_check "skipped" "자동업데이트 꺼짐".

(** The loop body of [GitSyncGUI._check_updates_thread] for one record. *)
Definition check_one (token : string) (sub : Sub) : M (string * CheckResult) :=
  let r := get_or "" (repo sub) in
  let lp := get_or "" (local_path sub) in
  let br := get_or "main" (branch sub) in
  if negb (auto_flag sub) then ret (r, SKIPPED) else
  e <- exists_path lp ;;
  if negb e then ret (r, simple_check "missing" "폴더 없음") else
  g <- exists_path (path_join lp ".git") ;;
  if negb g then ret (r, simple_check "error" "Git 저장소 아님") else
  '(owner, name) <- split_repo r ;;
  (if String.eqb token "" then ret tt
   else run_git ["remote"; "set-url"; "origin"; token_url token owner name] lp ;;; ret tt) ;;;
  '(success, _) <- run_git ["fetch"; "origin"] lp ;;
  (if String.eqb token "" then ret tt
   else run_git ["remote"; "set-url"; "origin"; clean_url owner name] lp ;;; ret tt) ;;;
  if negb success then ret (r, simple_check "error" "fetch 실패") else
  local_commit <- get_local_commit lp ;;
  remote_commit <- get_remote_commit lp br ;;
  if negb (Str.truthy local_commit) || negb (Str.truthy remote_commit)
  then ret (r, simple_check "error" "커밋 확인 실패") else
  let lc := get_or "" local_commit in
  let rc := get_or "" remote_commit in
  if String.eqb lc rc then ret (r, simple_check "up-to-date" "최신 상태")
  else ret (r, mkCheck "update-available"
                 (Some ("업데이트 있음 (" ++ String.substring 0 7 lc ++ " → "
                        ++ String.substring 0 7 rc ++ ")"))
                 (Some lc) (Some rc) None None).

(** [GitSyncGUI._check_updates_thread]: the entries written to
    [self.check_results], in loop order. *)
Fixpoint check_updates_thread (token : string) (subs : list Sub)
  : M (list (string * CheckResult)) :=
  match subs with
  | [] => ret []
  | sub :: rest =>
      x <- check_one token sub ;;
      xs <- check_updates_thread token rest ;;
      ret (x :: xs)
  end.

(** [self.check_results.get(repo, {})]: the last entry written wins. *)
Definition result_of (results : list (string * CheckResult)) (r : string) : option CheckResult :=
  option_map snd (find (fun p => String.eqb (fst p) r) (rev results)).

(** The selection of [_check_and_auto_update_thread]: records with
    [sub.get("auto_update", False)] whose check found an update. *)
Fixpoint auto_update_targets (subs : list Sub) (results : list (string * CheckResult))
  : list string :=
  match subs with
  | [] => []
  | sub :: rest =>
      let r := get_or "" (repo sub) in
      if get_or false (auto_update sub) &&
         (match result_of results r with
          | Some c => String.eqb (c_status c) "update-available"
          | None => false
          end)
      then r :: auto_update_targets rest results
      else auto_update_targets rest results
  end.

(** ** Auto-update flag and list order (gitsync_gui.py) *)

Fixpoint find_index {A} (f : A -> bool) (l : list A) : option nat :=
  match l with
  | [] => None
  | x :: r => if f x then Some 0%nat else option_map S (find_index f r)
  end.

(** [lst.pop(n)] for an index in range *)
Definition remove_nth {A} (n : nat) (l : list A) : list A := firstn n l ++ skipn (S n) l.

(** [lst.insert(i, x)] for [i >= 0] *)
Definition py_insert {A} (i : nat) (x : A) (l : list A) : list A := firstn i l ++ x :: skipn i l.

(** The loop [for i, s in enumerate(self.subscriptions): if s.get(
    "auto_update", True): last_checked_idx = i], started at [-1]. *)
Fixpoint last_checked_idx_aux (i : nat) (l : list Sub) (acc : Z) : Z :=
  match l with
  | [] => acc
  | s :: r => last_checked_idx_aux (S i) r (if auto_flag s then Z.of_nat i else acc)
  end.

Definition last_checked_idx (l : list Sub) : Z := last_checked_idx_aux 0 l (-1)%Z.

(** The list [self.subscriptions] after [_toggle_auto_update] toggled the
    record at index [idx]. *)
Definition toggle_at (idx : nat) (sub : Sub) (subs : list Sub) : list Sub :=
  let current := get_or false (auto_update sub) in
  let new_state := negb current in
  let removed_sub := set_auto_update new_state sub in
  let rest := remove_nth idx subs in
  let insert_idx :=
    if new_state then Z.to_nat (last_checked_idx rest + 1)
    else length rest in
  py_insert insert_idx removed_sub rest.

(** [GitSyncGUI._toggle_auto_update(repo)]: the new [self.subscriptions],
    persisted through [load_repos] / [save_repos]. *)
Definition toggle_auto_update (subs : list Sub) (r : string) : M (list Sub) :=
  match find_index (repo_is r) subs with
  | None => ret subs
  | Some idx =>
      match nth_error subs idx with
      | None => ret subs
      | Some sub =>
          let out := toggle_at idx sub subs in
          v <- load_repos ;;
          reg <- with_subscriptions v out ;;
          save_repos reg ;;;
          ret out
      end
  end.

(** [0 if s.get("auto_update", True) else 1] as the key of Python's stable
    [list.sort]: with two key values the stable sort keeps the records of
    key 0 in their order, followed by those of key 1 in their order. *)
Definition sort_by_group_key (subs : list Sub) : list Sub :=
  filter auto_flag subs ++ filter (fun s => negb (auto_flag s)) subs.

Definition selected_change (selected : list string) (new_state : bool) (s : Sub) : bool :=
  match repo s with
  | Some r => existsb (String.eqb r) selected
              && negb (Bool.eqb (get_or false (auto_update s)) new_state)
  | None => false
  end.

(** [GitSyncGUI.menu_set_auto_update_selected(new_state)] for the current
    tree selection [selected]. *)
Definition menu_set_auto_update_selected (subs : list Sub) (selected : list string)
                                         (new_state : bool) : M (list Sub) :=
  match selected with
  | [] => ret subs
  | _ =>
    let changed := length (filter (selected_change selected new_state) subs) in
    let subs1 := map (fun s => if selected_change selected new_state s
                               then set_auto_update new_state s else s) subs in
    if Nat.eqb changed 0 then ret subs
    else
      let out := sort_by_group_key subs1 in
      v <- load_repos ;;
      reg <- with_subscriptions v out ;;
      save_repos reg ;;;
      ret out
  end.


(** ** More of the GUI tool (gitsync_gui.py) *)

(** [GitSyncGUI._update_last_commit(owner, repo_name, commit_sha)]: the
    loop sets ["last_commit"] on the first record named [owner/repo_name],
    saves the whole file and stops; without such a record nothing is
    written. *)
Definition gui_update_last_commit (owner name sha : string) : M unit :=
  v <- load_repos ;;
  subs <- get_subscriptions v ;;
  let repo_full := owner ++ "/" ++ name in
  if existsb (repo_is repo_full) subs
  then r <- update_in_place v (update_first repo_full sha) ;; save_repos r
  else ret tt.

(** The loop body of [GitSyncGUI._sync_repos] for the name [r]: what it adds
    to the counters [updated] and [errors] (its writes to
    [self.check_results] and its log lines are not modelled). *)
Definition gui_sync_one (subs : list Sub) (token r : string) : M (Z * Z) :=
  match lookup_sub subs r with
  | None => ret (0, 0)%Z
  | Some sub =>
    let lp := get_or "" (local_path sub) in
    let br := get_or "main" (branch sub) in
    e <- exists_path lp ;;
    if negb e then ret (0, 1)%Z else
    '(owner, repo_name) <- split_repo r ;;
    '(success, output) <- gui_pull_with_token r lp br token ;;
    if success then
      new_commit <- get_local_commit lp ;;
      (if Str.truthy new_commit
       then gui_update_last_commit owner repo_name (get_or "" new_commit) else ret tt) ;;;
      ret (1, 0)%Z
    else
      c <- conflict_or_unmerged is_merge_conflict_error_gui output lp ;;
      if c then
        '(ok2, _) <- gui_auto_recover_and_pull r lp br token ;;
        if ok2 then
          new_commit <- get_local_commit lp ;;
          (if Str.truthy new_commit
           then gui_update_last_commit owner repo_name (get_or "" new_commit) else ret tt) ;;;
          ret (1, 1 - 1)%Z
        else ret (0, 1)%Z
      else ret (0, 1)%Z
  end.

(** The loop of [GitSyncGUI._sync_repos] with its counters. *)
Fixpoint sync_repos_loop (subs : list Sub) (token : string) (repos : list string)
                         (updated errors : Z) : M (Z * Z) :=
  match repos with
  | [] => ret (updated, errors)
  | r :: rest =>
      '(du, de) <- gui_sync_one subs token r ;;
      sync_repos_loop subs token rest (updated + du)%Z (errors + de)%Z
  end.

(** [GitSyncGUI._sync_repos(repos)]: [(updated, errors)]. *)
Definition gui_sync_repos (subs : list Sub) (token : string) (repos : list string) : M (Z * Z) :=
  sync_repos_loop subs token repos 0%Z 0%Z.

(** [GitSyncGUI._check_and_auto_update_thread]: the check pass, then
    [_sync_repos] on the selected records if there are any.  Every record of
    [self.subscriptions] gets an entry in this pass, so the selection reads
    the entries of this pass. *)
Definition check_and_auto_update_thread (subs : list Sub) (token : string)
  : M (list (string * CheckResult) * option (Z * Z)) :=
  results <- check_updates_thread token subs ;;
  match auto_update_targets subs results with
  | [] => ret (results, None)
  | targets => n <- gui_sync_repos subs token targets ;; ret (results, Some n)
  end.

(** [GitSyncGUI._check_and_update_selected_thread(repos)] *)
Fixpoint check_and_update_selected (subs : list Sub) (token : string) (repos : list string)
  : M unit :=
  match repos with
  | [] => ret tt
  | r :: rest => check_and_update_single subs r token ;;; check_and_update_selected subs token rest
  end.

(** [sub.get("repo", "")], the row id of the record in the tree
    ([refresh_list] inserts each row with [iid=repo]). *)
Definition row_id (s : Sub) : string := get_or "" (repo s).

(** [GitSyncGUI._reorder_items(source_item, target_item)] on the tree rows
    [items] ([self.tree.get_children()]): the new [self.subscriptions].  The
    method's [try] catches the [ValueError] of [list.index] (the list is then
    unchanged) and any exception of the save, which comes after the
    assignment of [self.subscriptions]. *)
Definition reorder_items (subs : list Sub) (items : list string) (src tgt : string)
  : M (list Sub) :=
  match lookup_sub subs src, lookup_sub subs tgt with
  | Some source_sub, Some target_sub =>
    if negb (Bool.eqb (auto_flag source_sub) (auto_flag target_sub)) then ret subs else
    match find_index (String.eqb src) items, find_index (String.eqb tgt) items with
    | Some source_idx, Some target_idx =>
        let items_list := py_insert target_idx (nth source_idx items "")
                                   (remove_nth source_idx items) in
        let new_subscriptions :=
          flat_map (fun item => match lookup_sub subs item with
                                | Some x => [x]
                                | None => []
                                end) items_list in
        try_except (v <- load_repos ;;
                    reg <- with_subscriptions v new_subscriptions ;;
                    save_repos reg)
                   (ret tt) ;;;
        ret new_subscriptions
    | _, _ => ret subs
    end
  | _, _ => ret subs
  end.

(** ** Reclone (gitsync_gui.py) *)

(** The removal in [GitSyncGUI._delete_folder_tree]: [shutil.rmtree] with
    its [cmd /c rmdir] fallback, as a success flag and a message. *)
Variable delete_tree : string -> World -> bool * string * World.

(** [os.makedirs(path, exist_ok=True)]; [None] when it raises. *)
Variable make_dirs : string -> World -> option World.

(** [os.path.dirname] (POSIX separator, as [path_join]): the text up to the
    last slash, without its trailing slashes unless it has only slashes. *)
Fixpoint dir_head (p : string) : string :=
  match p with
  | EmptyString => EmptyString
  | String c r =>
      let h := dir_head r in
      if String.eqb h "" then (if Ascii.eqb c "/"%char then String c EmptyString else EmptyString)
      else String c h
  end.

Fixpoint all_slashes (s : string) : bool :=
  match s with
  | EmptyString => true
  | String c r => Ascii.eqb c "/"%char && all_slashes r
  end.

Fixpoint rstrip_slash (s : string) : string :=
  match s with
  | EmptyString => EmptyString
  | String c r =>
      let r' := rstrip_slash r in
      if Ascii.eqb c "/"%char && String.eqb r' "" then EmptyString else String c r'
  end.

Definition dirname (p : string) : string :=
  let head := dir_head p in
  if negb (String.eqb head "") && negb (all_slashes head) then rstrip_slash head else head.

(** [GitSyncGUI._delete_folder_tree(local_path)] *)
Definition gui_delete_folder_tree (lp : string) : M (bool * string) :=
  e <- exists_path lp ;;
  if negb e then ret (true, NO_FOLDER)
  else fun s => let '(ok, out, w') := delete_tree lp (world s) in
                (Ret (ok, out), mkSt w' (repos_file s) (trace s)).

(** [GitSyncGUI._clone_repo(repo_full, local_path, token)]; the clone runs
    with [cwd=None], recorded as the empty directory. *)
Definition clone_repo (repo_full lp token : string) : M (bool * string) :=
  match Str.split_slash repo_full with
  | [owner; name] =>
      let url := if String.eqb token "" then clean_url owner name
                 else token_url token owner name in
      let parent := dirname lp in
      (if String.eqb parent "" then ret tt
       else e <- exists_path parent ;;
            if e then ret tt
            else fun s => match make_dirs parent (world s) with
                          | Some w' => (Ret tt, mkSt w' (repos_file s) (trace s))
                          | None => (Exc "OSError", s)
                          end) ;;;
      run_git ["clone"; "--recursive"; url; lp] ""
  | _ => ret (false, "잘못된 repo 형식: " ++ repo_full)
  end.

(** The loop body of [GitSyncGUI._reclone_selected_thread] for the name
    [r]: [true] when it counts a success, [false] a failure. *)
Definition reclone_one (subs : list Sub) (token r : string) : M bool :=
  match lookup_sub subs r with
  | None => ret false
  | Some sub =>
    let lp := get_or "" (local_path sub) in
    if String.eqb lp "" then ret false else
    '(ok_del, _) <- gui_delete_folder_tree lp ;;
    if negb ok_del then ret false else
    '(ok_clone, _) <- clone_repo r lp token ;;
    if negb ok_clone then ret false else
    new_commit <- get_local_commit lp ;;
    (if Str.truthy new_commit then gui_store_last_commit r (get_or "" new_commit) else ret tt) ;;;
    ret true
  end.

(** [GitSyncGUI._reclone_selected_thread(repos)]: [(ok_count, fail_count)]. *)
Fixpoint reclone_loop (subs : list Sub) (token : string) (repos : list string)
                      (ok_count fail_count : nat) : M (nat * nat) :=
  match repos with
  | [] => ret (ok_count, fail_count)
  | r :: rest =>
      ok <- reclone_one subs token r ;;
      if ok then reclone_loop subs token rest (S ok_count) fail_count
      else reclone_loop subs token rest ok_count (S fail_count)
  end.

Definition reclone_selected_thread (subs : list Sub) (token : string) (repos : list string)
  : M (nat * nat) :=
  reclone_loop subs token repos 0 0.

(** ** Unsubscribing (gitsync.py) *)

(** [shutil.rmtree(local_path)] in [remove_repo]; its exception is caught
    and only printed. *)
Variable rmtree : string -> World -> World.

(** [remove_repo(repo_input, delete_local)]; [sys.exit(1)] of
    [parse_repo_input] is the exception [SystemExit]. *)
Definition remove_repo (repo_input : string) (delete_local : bool) : M bool :=
  match Text.parse_repo_input repo_input with
  | None => raise "SystemExit"
  | Some (owner, repo_name) =>
    v <- load_repos ;;
    subs <- get_subscriptions v ;;
    match find_subscription subs (owner ++ "/" ++ repo_name) with
    | None => ret false
    | Some sub =>
      let lp := get_or "" (local_path sub) in
      removed <- remove_subscription owner repo_name ;;
      if removed then
        (if delete_local && negb (String.eqb lp "") then
           e <- exists_path lp ;;
           if e then fun s => (Ret tt, mkSt (rmtree lp (world s)) (repos_file s) (trace s))
           else ret tt
         else ret tt) ;;;
        ret true
      else ret false
    end
  end.

(** ** Trace predicates *)

(** No [reset --hard] is met before a backup. *)
Fixpoint backup_before_reset (l : list Event) : bool :=
  match l with
  | [] => true
  | e :: r => if is_backup e then true else if is_reset e then false else backup_before_reset r
  end.

(** [git remote set-url origin u] run in [c], as [Some (c, u)]. *)
Definition set_origin (e : Event) : option (string * string) :=
  match e with
  | EvGit c [a1; a2; a3; u] =>
      if String.eqb a1 "remote" && String.eqb a2 "set-url" && String.eqb a3 "origin"
      then Some (c, u) else None
  | _ => None
  end.

(** The [origin] URL of the repository at [cwd] after the events [l],
    starting from [init]: the last [git remote set-url origin] there. *)
Fixpoint origin_url (init cwd : string) (l : list Event) : string :=
  match l with
  | [] => init
  | e :: r =>
      origin_url (match set_origin e with
                  | Some (c, u) => if String.eqb c cwd then u else init
                  | None => init
                  end) cwd r
  end.

(** The events of one network operation [op] in [lp] inside the token
    window: token URL, operation, clean URL. *)
Definition token_window (lp tok owner name : string) (op : list string) : list Event :=
  [EvGit lp ["remote"; "set-url"; "origin"; token_url tok owner name];
   EvGit lp op;
   EvGit lp ["remote"; "set-url"; "origin"; clean_url owner name]].

(** All enabled records ([auto_update] true or absent) come first. *)
Fixpoint grouped (l : list Sub) : bool :=
  match l with
  | [] => true
  | x :: r => if auto_flag x then grouped r else forallb (fun y => negb (auto_flag y)) r
  end.

(** The number of enabled records. *)
Definition count_enabled (l : list Sub) : nat := length (filter auto_flag l).

(** ** Effects of a computation on the trace *)

(** [m] only appends events satisfying [P] to the trace. *)
Definition stays (P : Event -> bool) {A} (m : M A) : Prop :=
  forall s r s', m s = (r, s') -> exists new, trace s' = (trace s ++ new)%list /\ forallb P new = true.

Definition quiet (e : Event) : bool := negb (destructive e).

Definition noreset (e : Event) : bool := negb (is_reset e).

Definition any_event (e : Event) : bool := true.


Definition disabled (s : Sub) : bool := negb (auto_flag s).

(** [m] appends to the trace, and no [reset --hard] it appends comes
    before a backup. *)
Definition bbr {A} (m : M A) : Prop :=
  forall s r s', m s = (r, s') ->
    exists new, trace s' = (trace s ++ new)%list /\ backup_before_reset new = true.

(** No [git reset --hard] runs in a directory outside [seen] before a
    backup of that directory. *)
Fixpoint reset_guarded (seen : list string) (l : list Event) : bool :=
  match l with
  | [] => true
  | EvBackup p :: r => reset_guarded (p :: seen) r
  | e :: r =>
      (negb (is_reset e) || match e with EvGit c _ => existsb (String.eqb c) seen | _ => false end)
      && reset_guarded seen r
  end.

(** [m] appends to the trace, and each [git reset --hard] it runs comes
    after a backup of the same directory in the same run. *)
Definition guarded {A} (m : M A) : Prop :=
  forall s r s', m s = (r, s') ->
    exists new, trace s' = (trace s ++ new)%list /\ reset_guarded [] new = true.

(** The event is no [reset --hard] outside the directory [p]. *)
Definition resets_only_in (p : string) (e : Event) : bool :=
  negb (is_reset e) || match e with EvGit c _ => String.eqb c p | _ => false end.

(** Every value [m] returns satisfies [Q]. *)
Definition returns {A} (Q : A -> Prop) (m : M A) : Prop :=
  forall s a s', m s = (Ret a, s') -> Q a.

(** The event is no [git remote set-url origin]. *)
Definition keeps_origin (e : Event) : bool :=
  match set_origin e with Some _ => false | None => true end.

(** A [git clone] event whose URL starts with the token form
    [https://{token}@github.com/]. *)
Definition clone_with_token (tok : string) (e : Event) : bool :=
  match e with
  | EvGit _ ("clone" :: _ :: url :: _) => String.prefix ("https://" ++ tok ++ "@github.com/") url
  | _ => true
  end.


Lemma stays_ret P {A} (a : A) : stays P (ret a).
Proof. intros s r s' H; inversion H; subst; exists []; rewrite app_nil_r; auto. Qed.

Lemma stays_raise P {A} (e : string) : stays P (@raise A e).
Proof. intros s r s' H; inversion H; subst; exists []; rewrite app_nil_r; auto. Qed.

Lemma stays_bind P {A B} (m : M A) (k : A -> M B) :
  stays P m -> (forall a, stays P (k a)) -> stays P (bind m k).
Proof.
  intros Hm Hk s r s' H; unfold bind in H.
  destruct (m s) as [[a|e] s1] eqn:E.
  - destruct (Hm _ _ _ E) as [n1 [T1 F1]].
    destruct (Hk a _ _ _ H) as [n2 [T2 F2]].
    exists (n1 ++ n2)%list; rewrite T2, T1, app_assoc, forallb_app, F1, F2; auto.
  - inversion H; subst; eauto.
Qed.

Lemma stays_try P {A} (m h : M A) : stays P m -> stays P h -> stays P (try_except m h).
Proof.
  intros Hm Hh s r s' H; unfold try_except in H.
  destruct (m s) as [[a|e] s1] eqn:E.
  - inversion H; subst; eauto.
  - destruct (Hm _ _ _ E) as [n1 [T1 F1]].
    destruct (Hh _ _ _ H) as [n2 [T2 F2]].
    exists (n1 ++ n2)%list; rewrite T2, T1, app_assoc, forallb_app, F1, F2; auto.
Qed.

Lemma stays_run_git P args cwd : P (EvGit cwd args) = true -> stays P (run_git args cwd).
Proof.
  intros HP s r s' H; unfold run_git in H.
  destruct (git_oracle env cwd args (world s)) as [[ok out] w']; inversion H; subst.
  exists [EvGit cwd args]; simpl; rewrite HP; auto.
Qed.

Lemma stays_emit P e : P e = true -> stays P (emit e).
Proof. intros HP s r s' H; inversion H; subst; exists [e]; simpl; rewrite HP; auto. Qed.

Lemma stays_exists_path P p : stays P (exists_path p).
Proof. intros s r s' H; inversion H; subst; exists []; rewrite app_nil_r; auto. Qed.

Lemma stays_split_repo P r : stays P (split_repo r).
Proof. unfold split_repo; destruct (Str.split_slash r) as [|? [|? [|]]]; auto using stays_ret, stays_raise. Qed.

Lemma stays_load P : stays P load_repos.
Proof.
  intros s r s' H; unfold load_repos in H.
  destruct (repos_file s) as [c|]; [ destruct (parse_json env c) | ];
    inversion H; subst; exists []; rewrite app_nil_r; auto.
Qed.

Lemma stays_save P r : P (EvSave (dump_json env r)) = true -> stays P (save_repos r).
Proof. intros HP s x s' H; inversion H; subst; exists [EvSave (dump_json env r)]; simpl; rewrite HP; auto. Qed.

Lemma stays_backup P p : P (EvBackup p) = true -> stays P (gui_backup_local_folder p).
Proof.
  intros HP s r s' H; unfold gui_backup_local_folder, bind, emit, exists_path in H.
  destruct (path_exists env p _); simpl in H.
  - destruct (copytree env p _) as [[ok out] w']; inversion H; subst.
    exists [EvBackup p]; simpl; rewrite HP; auto.
  - inversion H; subst; exists [EvBackup p]; simpl; rewrite HP; auto.
Qed.

Ltac stays_tac :=
  repeat first
    [ apply stays_ret | apply stays_raise | apply stays_exists_path | apply stays_split_repo
    | apply stays_load | apply stays_save; reflexivity
    | apply stays_backup; reflexivity
    | apply stays_emit; reflexivity
    | apply stays_run_git; reflexivity
    | apply stays_try
    | apply stays_bind; [ | let x := fresh "x" in intros x;
                            repeat match goal with
                                   | p : (_ * _)%type |- _ => destruct p
                                   end ]
    | match goal with
      | |- stays _ (if ?b then _ else _) => destruct b
      | |- stays _ (match ?b with _ => _ end) => destruct b
      end ].

Lemma pull_with_token_quiet rf lp br t : stays quiet (pull_with_token rf lp br t).
Proof. unfold pull_with_token, set_remote_url_with_token, restore_remote_url; stays_tac. Qed.

Lemma fetch_with_token_quiet_but_fetch rf lp t :
  stays (fun e => negb (is_reset e) && negb (is_backup e)) (fetch_with_token rf lp t).
Proof. unfold fetch_with_token, set_remote_url_with_token, restore_remote_url; stays_tac. Qed.

Lemma gui_pull_with_token_quiet rf lp br t : stays quiet (gui_pull_with_token rf lp br t).
Proof. unfold gui_pull_with_token; stays_tac. Qed.

Lemma has_unmerged_paths_quiet lp : stays quiet (has_unmerged_paths lp).
Proof. unfold has_unmerged_paths; stays_tac. Qed.

Lemma abort_merge_quiet lp : stays quiet (abort_merge lp).
Proof. unfold abort_merge; stays_tac. Qed.

Lemma gui_log_quiet lp : stays quiet (gui_log_git_status_summary lp).
Proof. unfold gui_log_git_status_summary; stays_tac. Qed.

Lemma stays_seq P {A B} (m : M A) (k : M B) s s1 s2 a b :
  stays P m -> stays P k -> m s = (a, s1) -> k s1 = (b, s2) ->
  exists new, trace s2 = (trace s ++ new)%list /\ forallb P new = true.
Proof.
  intros Hm Hk E1 E2.
  destruct (Hm _ _ _ E1) as [n1 [T1 F1]]; destruct (Hk _ _ _ E2) as [n2 [T2 F2]].
  exists (n1 ++ n2)%list; rewrite T2, T1, app_assoc, forallb_app, F1, F2; auto.
Qed.

Lemma cli_update_nonstructural rf owner name lp br tok lc rc out s s1 s2 :
  pull_with_token rf lp br tok s = (Ret (false, out), s1) ->
  is_merge_conflict_error out = false ->
  has_unmerged_paths lp s1 = (Ret false, s2) ->
  sync_repository_update rf owner name lp br tok lc rc s
    = (Ret (mkResult "error" ("pull 실패: " ++ out)), s2)
  /\ exists new, trace s2 = (trace s ++ new)%list /\ forallb quiet new = true.
Proof.
  intros Hp Hc Hu; split.
  - unfold sync_repository_update, conflict_or_unmerged, bind.
    rewrite Hp; cbn [negb]; cbv iota beta.
    rewrite Hc; cbv iota beta; rewrite Hu; reflexivity.
  - eapply stays_seq; [apply pull_with_token_quiet | apply has_unmerged_paths_quiet | exact Hp | exact Hu].
Qed.
Lemma cli_recover_nonstructural rf lp br tok out s s1 s2 :
  (abort_merge lp ;;; pull_with_token rf lp br tok) s = (Ret (false, out), s1) ->
  is_merge_conflict_error out = false ->
  has_unmerged_paths lp s1 = (Ret false, s2) ->
  auto_recover_and_pull rf lp br tok s = (Ret (false, out), s2)
  /\ exists new, trace s2 = (trace s ++ new)%list /\ forallb quiet new = true.
Proof.
  intros Hp Hc Hu; split.
  - unfold auto_recover_and_pull, conflict_or_unmerged.
    unfold bind in Hp |- *.
    destruct (abort_merge lp s) as [[a|e] sa]; [ | discriminate Hp ].
    rewrite Hp; cbv beta iota.
    rewrite Hc; cbv beta iota; rewrite Hu; reflexivity.
  - eapply stays_seq; [ | apply has_unmerged_paths_quiet | exact Hp | exact Hu ].
    apply stays_bind; [apply abort_merge_quiet | intros; apply pull_with_token_quiet].
Qed.

Lemma gui_recover_nonstructural rf lp br tok out s s1 s2 :
  (gui_log_git_status_summary lp ;;; abort_merge lp ;;; gui_pull_with_token rf lp br tok) s
    = (Ret (false, out), s1) ->
  is_merge_conflict_error_gui out = false ->
  has_unmerged_paths lp s1 = (Ret false, s2) ->
  gui_auto_recover_and_pull rf lp br tok s = (Ret (false, out), s2)
  /\ exists new, trace s2 = (trace s ++ new)%list /\ forallb quiet new = true.
Proof.
  intros Hp Hc Hu; split.
  - unfold gui_auto_recover_and_pull, conflict_or_unmerged.
    unfold bind in Hp |- *.
    destruct (gui_log_git_status_summary lp s) as [[a|e] sa]; [ | discriminate Hp ].
    destruct (abort_merge lp sa) as [[b|e] sb]; [ | discriminate Hp ].
    rewrite Hp; cbv beta iota.
    rewrite Hc; cbv beta iota; rewrite Hu; reflexivity.
  - eapply stays_seq; [ | apply has_unmerged_paths_quiet | exact Hp | exact Hu ].
    apply stays_bind; [apply gui_log_quiet | intros ].
    apply stays_bind; [apply abort_merge_quiet | intros; apply gui_pull_with_token_quiet].
Qed.

Lemma gui_single_nonstructural r lp br tok behind ahead out s s1 s2 :
  behind <> 0%N ->
  gui_pull_with_token r lp br tok s = (Ret (false, out), s1) ->
  is_merge_conflict_error_gui out = false ->
  has_unmerged_paths lp s1 = (Ret false, s2) ->
  single_act r lp br tok behind ahead s = (Ret tt, s2)
  /\ exists new, trace s2 = (trace s ++ new)%list /\ forallb quiet new = true.
Proof.
  intros Hb Hp Hc Hu; split.
  - unfold single_act, conflict_or_unmerged.
    apply N.eqb_neq in Hb; rewrite Hb; cbn [andb].
    unfold bind; rewrite Hp; cbv beta iota.
    rewrite Hc; cbv beta iota; rewrite Hu; reflexivity.
  - eapply stays_seq; [apply gui_pull_with_token_quiet | apply has_unmerged_paths_quiet | exact Hp | exact Hu].
Qed.

(** C1: a failed update whose output is not a structural conflict, in a
    working tree without unmerged paths, is surfaced as a failure at once:
    the command-line update returns [error], both recovery routines return
    [(False, output)] right after the retry, and the GUI update stops; in
    every case nothing after the failed pull is a backup, a fetch, a hard
    reset or a clean. *)
Theorem nonstructural_failure_no_destructive_step :
  forall rf owner name lp br tok lc rc behind ahead out s s1 s2,
    (pull_with_token rf lp br tok s = (Ret (false, out), s1) ->
     is_merge_conflict_error out = false ->
     has_unmerged_paths lp s1 = (Ret false, s2) ->
     sync_repository_update rf owner name lp br tok lc rc s
       = (Ret (mkResult "error" ("pull 실패: " ++ out)), s2)
     /\ exists new, trace s2 = (trace s ++ new)%list /\ forallb quiet new = true)
 /\ ((abort_merge lp ;;; pull_with_token rf lp br tok) s = (Ret (false, out), s1) ->
     is_merge_conflict_error out = false ->
     has_unmerged_paths lp s1 = (Ret false, s2) ->
     auto_recover_and_pull rf lp br tok s = (Ret (false, out), s2)
     /\ exists new, trace s2 = (trace s ++ new)%list /\ forallb quiet new = true)
 /\ ((gui_log_git_status_summary lp ;;; abort_merge lp ;;; gui_pull_with_token rf lp br tok) s
       = (Ret (false, out), s1) ->
     is_merge_conflict_error_gui out = false ->
     has_unmerged_paths lp s1 = (Ret false, s2) ->
     gui_auto_recover_and_pull rf lp br tok s = (Ret (false, out), s2)
     /\ exists new, trace s2 = (trace s ++ new)%list /\ forallb quiet new = true)
 /\ (behind <> 0%N ->
     gui_pull_with_token rf lp br tok s = (Ret (false, out), s1) ->
     is_merge_conflict_error_gui out = false ->
     has_unmerged_paths lp s1 = (Ret false, s2) ->
     single_act rf lp br tok behind ahead s = (Ret tt, s2)
     /\ exists new, trace s2 = (trace s ++ new)%list /\ forallb quiet new = true).
Proof.
  intros rf owner name lp br tok lc rc behind ahead out s s1 s2.
  split; [ exact (cli_update_nonstructural rf owner name lp br tok lc rc out s s1 s2) | ].
  split; [ exact (cli_recover_nonstructural rf lp br tok out s s1 s2) | ].
  split; [ exact (gui_recover_nonstructural rf lp br tok out s s1 s2) | ].
  exact (gui_single_nonstructural rf lp br tok behind ahead out s s1 s2).
Qed.

(** ** Backup before reset in the GUI recovery *)

Lemma backup_before_reset_app a b :
  forallb noreset a = true -> backup_before_reset b = true ->
  backup_before_reset (a ++ b) = true.
Proof.
  induction a as [|e a IH]; simpl; auto.
  unfold noreset; intros H Hb; apply andb_true_iff in H as [H1 H2].
  destruct (is_backup e); auto.
  apply negb_true_iff in H1; rewrite H1; auto.
Qed.

Lemma bbr_of_stays {A} (m : M A) : stays noreset m -> bbr m.
Proof.
  intros Hm s r s' H; destruct (Hm _ _ _ H) as [n [T F]]; exists n; split; auto.
  rewrite <- (app_nil_r n); apply backup_before_reset_app; auto.
Qed.

Lemma bbr_bind {A B} (m : M A) (k : A -> M B) :
  stays noreset m -> (forall a, bbr (k a)) -> bbr (bind m k).
Proof.
  intros Hm Hk s r s' H; unfold bind in H.
  destruct (m s) as [[a|e] s1] eqn:E.
  - destruct (Hm _ _ _ E) as [n1 [T1 F1]].
    destruct (Hk a _ _ _ H) as [n2 [T2 F2]].
    exists (n1 ++ n2)%list; rewrite T2, T1, app_assoc; split; auto.
    apply backup_before_reset_app; auto.
  - inversion H; subst; exact (bbr_of_stays m Hm _ _ _ E).
Qed.



Lemma bbr_backup {B} p (k : bool * string -> M B) :
  (forall a, stays (fun _ => true) (k a)) -> bbr (bind (gui_backup_local_folder p) k).
Proof.
  intros Hk s r s' H; unfold bind in H.
  destruct (gui_backup_local_folder p s) as [[a|e] s1] eqn:E.
  - assert (T1 : trace s1 = (trace s ++ [EvBackup p])%list).
    { revert E; unfold gui_backup_local_folder, bind, emit, exists_path.
      destruct (path_exists env p _); simpl.
      - destruct (copytree env p _) as [[ok out] w']; intros E; inversion E; reflexivity.
      - intros E; inversion E; reflexivity. }
    destruct (Hk a _ _ _ H) as [n2 [T2 _]].
    exists (EvBackup p :: n2); rewrite T2, T1, <- app_assoc; auto.
  - inversion H; subst.
    destruct (stays_backup (fun _ => true) p eq_refl _ _ _ E) as [n [T _]].
    assert (T1 : trace s' = (trace s ++ [EvBackup p])%list).
    { revert E; unfold gui_backup_local_folder, bind, emit, exists_path.
      destruct (path_exists env p _); simpl.
      - destruct (copytree env p _) as [[ok out] w']; intros E; inversion E.
      - intros E; inversion E. }
    exists [EvBackup p]; auto.
Qed.

(** In the GUI recovery no hard reset runs before a backup was attempted. *)
Lemma gui_recovery_backup_before_reset rf lp br tok :
  bbr (gui_auto_recover_and_pull rf lp br tok).
Proof.
  unfold gui_auto_recover_and_pull.
  apply bbr_bind; [ unfold gui_log_git_status_summary; stays_tac | intros _ ].
  apply bbr_bind; [ unfold abort_merge; stays_tac | intros _ ].
  apply bbr_bind; [ unfold gui_pull_with_token; stays_tac | intros [ok out] ].
  destruct ok; [ apply bbr_of_stays; stays_tac | ].
  apply bbr_bind; [ unfold conflict_or_unmerged, has_unmerged_paths; stays_tac | intros c ].
  destruct c; simpl; [ | apply bbr_of_stays; stays_tac ].
  apply bbr_backup; intros _.
  unfold hard_reset_to_remote, gui_pull_with_token; stays_tac.
Qed.

(** ** Which step comes first *)

Lemma bind_step {A B} (m : M A) (k : A -> M B) s a s1 :
  m s = (Ret a, s1) -> bind m k s = k a s1.
Proof. intros E; unfold bind; rewrite E; reflexivity. Qed.

Lemma run_git_step args cwd s :
  exists ok out w, run_git args cwd s
    = (Ret (ok, out), mkSt w (repos_file s) (trace s ++ [EvGit cwd args])%list).
Proof. unfold run_git; destruct (git_oracle env cwd args (world s)) as [[ok out] w]; eauto. Qed.

(** The token step before a pull never raises (its [except] catches all). *)
Lemma token_step_ok tok (m : M unit) s :
  exists s1, (if String.eqb tok "" then ret tt else try_except m (ret tt)) s = (Ret tt, s1).
Proof.
  destruct (String.eqb tok ""); [ eexists; reflexivity | ].
  unfold try_except; destruct (m s) as [[[]|e] s1]; eexists; reflexivity.
Qed.

(** A run of [bind m1 (fun _ => bind (run_git args cwd) k)] where [m1]
    cannot raise: its trace is [m1]'s events, then the git command. *)
Lemma git_after P {B} (m1 : M unit) args cwd (k : bool * string -> M B) s r s' :
  stays P m1 -> (exists s1, m1 s = (Ret tt, s1)) -> (forall a, stays any_event (k a)) ->
  bind m1 (fun _ => bind (run_git args cwd) k) s = (r, s') ->
  exists pre post, trace s' = (trace s ++ pre ++ EvGit cwd args :: post)%list
                   /\ forallb P pre = true.
Proof.
  intros Hm [s1 E1] Hk H.
  rewrite (bind_step _ _ _ _ _ E1) in H.
  destruct (Hm _ _ _ E1) as [pre [T1 F1]].
  destruct (run_git_step args cwd s1) as (ok & out & w & E2).
  rewrite (bind_step _ _ _ _ _ E2) in H.
  destruct (Hk _ _ _ _ H) as [post [T3 _]].
  exists pre, post; split; auto.
  rewrite T3; simpl; rewrite T1, <- !app_assoc; reflexivity.
Qed.

Lemma pull_with_token_first rf lp br tok s r s1 :
  pull_with_token rf lp br tok s = (r, s1) ->
  exists pre post, trace s1 = (trace s ++ pre ++ EvGit lp ["pull"; "origin"; br] :: post)%list
                   /\ forallb quiet pre = true.
Proof.
  unfold pull_with_token; apply git_after.
  - unfold set_remote_url_with_token; stays_tac.
  - apply token_step_ok.
  - intros a; unfold restore_remote_url; stays_tac.
Qed.

Lemma gui_pull_with_token_first rf lp br tok s r s1 :
  gui_pull_with_token rf lp br tok s = (r, s1) ->
  exists pre post, trace s1 = (trace s ++ pre ++ EvGit lp ["pull"; "origin"; br] :: post)%list
                   /\ forallb quiet pre = true.
Proof.
  unfold gui_pull_with_token; apply git_after.
  - stays_tac.
  - apply token_step_ok.
  - intros a; stays_tac.
Qed.


Lemma backup_step lp s :
  exists a s1, gui_backup_local_folder lp s = (Ret a, s1)
               /\ trace s1 = (trace s ++ [EvBackup lp])%list.
Proof.
  unfold gui_backup_local_folder, bind, emit, exists_path; simpl.
  destruct (path_exists env lp _); simpl.
  - destruct (copytree env lp _) as [[ok out] w']; do 2 eexists; split; reflexivity.
  - do 2 eexists; split; reflexivity.
Qed.







(** ** The token window *)

Lemma origin_url_app init cwd a b :
  origin_url init cwd (a ++ b) = origin_url (origin_url init cwd a) cwd b.
Proof. induction a as [|e a IH] in init |- *; simpl; auto. Qed.

Lemma origin_url_window init lp tok owner name op :
  origin_url init lp (token_window lp tok owner name op) = clean_url owner name.
Proof.
  unfold token_window; simpl; rewrite String.eqb_refl; reflexivity.
Qed.

Ltac run_oracles :=
  repeat (cbn beta iota zeta;
          match goal with
          | |- context [git_oracle ?e ?c ?a ?w] =>
              let ok := fresh "ok" in let out := fresh "out" in let w' := fresh "w" in
              destruct (git_oracle e c a w) as [[ok out] w']
          end).

(** C7: with a non-empty token and a repository name [owner/name], each
    network operation with the token ([pull_with_token] and
    [fetch_with_token] of gitsync.py, [_pull_with_token] of gitsync_gui.py)
    appends exactly: set the token URL, the operation, set the clean URL;
    whatever the operation returns; afterwards [origin] holds the clean
    URL. *)
Theorem token_url_restored :
  forall rf lp br tok owner name s,
    tok <> "" -> Str.split_slash rf = [owner; name] ->
    (exists ok out w, pull_with_token rf lp br tok s
       = (Ret (ok, out), mkSt w (repos_file s)
                              (trace s ++ token_window lp tok owner name ["pull"; "origin"; br])))
    /\ (exists ok out w, fetch_with_token rf lp tok s
       = (Ret (ok, out), mkSt w (repos_file s)
                              (trace s ++ token_window lp tok owner name ["fetch"; "origin"])))
    /\ (exists ok out w, gui_pull_with_token rf lp br tok s
       = (Ret (ok, out), mkSt w (repos_file s)
                              (trace s ++ token_window lp tok owner name ["pull"; "origin"; br])))
    /\ (forall init op,
          origin_url init lp (trace s ++ token_window lp tok owner name op) = clean_url owner name).
Proof.
  intros rf lp br tok owner name s Ht Hs.
  apply String.eqb_neq in Ht.
  split; [ | split; [ | split ] ].
  - unfold pull_with_token, set_remote_url_with_token, restore_remote_url, split_repo.
    rewrite Ht, Hs; unfold bind, try_except, run_git, ret.
    run_oracles; do 3 eexists; unfold token_window; cbn [repos_file trace world]; rewrite <- !app_assoc; reflexivity.
  - unfold fetch_with_token, set_remote_url_with_token, restore_remote_url, split_repo.
    rewrite Ht, Hs; unfold bind, try_except, run_git, ret.
    run_oracles; do 3 eexists; unfold token_window; cbn [repos_file trace world]; rewrite <- !app_assoc; reflexivity.
  - unfold gui_pull_with_token, split_repo.
    rewrite Ht, Hs; unfold bind, try_except, run_git, ret.
    run_oracles; do 3 eexists; unfold token_window; cbn [repos_file trace world]; rewrite <- !app_assoc; reflexivity.
  - intros init op; rewrite origin_url_app; apply origin_url_window.
Qed.

(** ** Records with auto-update switched off *)

(** C6 (as the code has it): in the GUI's periodic check pass
    ([_check_updates_thread]) a record whose ["auto_update"] is [False] is
    skipped: its entry is the [skipped] result, the state (git, files,
    trace) is untouched, the rest of the pass runs as without it, and the
    auto-update step that follows never selects it.  The command-line
    [sync_all] has no such test: its loop over the records runs exactly as
    with that record's flag switched on (see also
    [sync_all_updates_disabled_record]). *)
Theorem check_pass_skips_disabled :
  forall token x, auto_update x = Some false ->
    (forall s, check_one token x s = (Ret (get_or "" (repo x), SKIPPED), s))
    /\ (forall rest s,
          check_updates_thread token (x :: rest) s
          = match check_updates_thread token rest s with
            | (Ret xs, s') => (Ret ((get_or "" (repo x), SKIPPED) :: xs), s')
            | (Exc e, s') => (Exc e, s')
            end)
    /\ (forall pre post results,
          auto_update_targets (pre ++ x :: post) results
          = (auto_update_targets pre results ++ auto_update_targets post results)%list)
    /\ (forall pre post,
          sync_each (pre ++ x :: post) token
          = sync_each (pre ++ set_auto_update true x :: post) token).
Proof.
  intros token x Hx.
  assert (H1 : forall s, check_one token x s = (Ret (get_or "" (repo x), SKIPPED), s)).
  { intros s; unfold check_one, auto_flag; rewrite Hx; reflexivity. }
  split; [ exact H1 | split; [ | split ] ].
  - intros rest s; cbn [check_updates_thread]; unfold bind at 1; rewrite H1.
    unfold bind, ret; destruct (check_updates_thread token rest s) as [[xs|e] s']; reflexivity.
  - intros pre post results; induction pre as [|y pre IH]; cbn [app auto_update_targets].
    + rewrite Hx; reflexivity.
    + rewrite IH; destruct (_ && _); reflexivity.
  - intros pre post; induction pre as [|y pre IH]; cbn [app sync_each]; [ reflexivity | ].
    rewrite IH; reflexivity.
Qed.

(** ** Grouping of the subscription list *)

Lemma forallb_firstn {A} (f : A -> bool) n l :
  forallb f l = true -> forallb f (firstn n l) = true.
Proof.
  induction l as [|x l IH] in n |- *; destruct n; simpl; auto.
  intros H; apply andb_true_iff in H as [H1 H2]; rewrite H1; simpl; auto.
Qed.

Lemma forallb_skipn {A} (f : A -> bool) n l :
  forallb f l = true -> forallb f (skipn n l) = true.
Proof.
  induction l as [|x l IH] in n |- *; destruct n; simpl; auto.
  intros H; apply andb_true_iff in H as [H1 H2]; auto.
Qed.

Lemma grouped_of_disabled l : forallb disabled l = true -> grouped l = true.
Proof.
  destruct l as [|x r]; simpl; auto.
  unfold disabled; intros H; apply andb_true_iff in H as [H1 H2].
  apply negb_true_iff in H1; rewrite H1; exact H2.
Qed.

Lemma grouped_tail x r : grouped (x :: r) = true -> grouped r = true.
Proof. simpl; destruct (auto_flag x); auto using grouped_of_disabled. Qed.

Lemma grouped_remove l n : grouped l = true -> grouped (remove_nth n l) = true.
Proof.
  induction l as [|x r IH] in n |- *; intros H; destruct n; auto.
  - change (remove_nth 0 (x :: r)) with r; exact (grouped_tail x r H).
  - change (remove_nth (S n) (x :: r)) with (x :: remove_nth n r).
    cbn [grouped] in H |- *; destruct (auto_flag x); auto.
    unfold remove_nth; rewrite forallb_app; apply andb_true_iff; split;
      [ apply forallb_firstn | apply forallb_skipn ]; exact H.
Qed.

Lemma filter_disabled l : forallb disabled l = true -> filter auto_flag l = [].
Proof.
  induction l as [|x r IH]; simpl; auto.
  unfold disabled at 1; intros H; apply andb_true_iff in H as [H1 H2].
  apply negb_true_iff in H1; rewrite H1; auto.
Qed.

Lemma last_checked_disabled i l acc :
  forallb disabled l = true -> last_checked_idx_aux i l acc = acc.
Proof.
  induction l as [|x r IH] in i |- *; simpl; auto.
  unfold disabled at 1; intros H; apply andb_true_iff in H as [H1 H2].
  apply negb_true_iff in H1; rewrite H1; auto.
Qed.

Lemma last_checked_grouped l i acc :
  grouped l = true ->
  last_checked_idx_aux i l acc
  = if Nat.eqb (length (filter auto_flag l)) 0 then acc
    else (Z.of_nat (i + length (filter auto_flag l)) - 1)%Z.
Proof.
  induction l as [|x r IH] in i, acc |- *; intros H; [ reflexivity | ].
  cbn [last_checked_idx_aux filter grouped] in H |- *.
  destruct (auto_flag x) eqn:Ex.
  - rewrite (IH (S i) (Z.of_nat i) H); cbn [length].
    destruct (length (filter auto_flag r)) as [|c]; cbn [Nat.eqb]; lia.
  - rewrite (last_checked_disabled _ _ _ H), (filter_disabled _ H); reflexivity.
Qed.

Lemma insert_idx_grouped l :
  grouped l = true -> Z.to_nat (last_checked_idx l + 1) = length (filter auto_flag l).
Proof.
  intros H; unfold last_checked_idx; rewrite (last_checked_grouped l 0 (-1) H).
  destruct (length (filter auto_flag l)) as [|c]; cbn [Nat.eqb]; lia.
Qed.

Lemma grouped_insert_enabled l x :
  grouped l = true -> auto_flag x = true ->
  grouped (py_insert (length (filter auto_flag l)) x l) = true.
Proof.
  unfold py_insert; intros H Hx.
  induction l as [|y r IH]; simpl; [ rewrite Hx; auto | ].
  simpl in H; destruct (auto_flag y) eqn:Ey; simpl.
  - rewrite Ey; auto.
  - rewrite (filter_disabled _ H); simpl; rewrite Hx; simpl; rewrite Ey; exact H.
Qed.

Lemma grouped_snoc_disabled l x :
  grouped l = true -> auto_flag x = false -> grouped (l ++ [x]) = true.
Proof.
  intros H Hx; induction l as [|y r IH]; simpl; [ rewrite Hx; auto | ].
  simpl in H; destruct (auto_flag y); auto.
  rewrite forallb_app, H; simpl; rewrite Hx; auto.
Qed.

Lemma grouped_app_groups a b :
  forallb auto_flag a = true -> forallb disabled b = true -> grouped (a ++ b) = true.
Proof.
  induction a as [|x a IH]; simpl; auto using grouped_of_disabled.
  intros H Hb; apply andb_true_iff in H as [H1 H2]; rewrite H1; auto.
Qed.

Lemma forallb_filter {A} (f : A -> bool) l : forallb f (filter f l) = true.
Proof. induction l as [|x l IH]; simpl; auto; destruct (f x) eqn:E; simpl; rewrite ?E; auto. Qed.

Lemma grouped_sort l : grouped (sort_by_group_key l) = true.
Proof.
  unfold sort_by_group_key; apply grouped_app_groups; [ apply forallb_filter | ].
  apply (forallb_filter disabled).
Qed.

Lemma py_insert_remove {A} j (x : A) l :
  (j <= length l)%nat ->
  nth_error (py_insert j x l) j = Some x /\ remove_nth j (py_insert j x l) = l.
Proof.
  intros Hj; unfold py_insert, remove_nth.
  assert (Hl : length (firstn j l) = j) by (apply firstn_length_le; exact Hj).
  split.
  - rewrite nth_error_app2 by lia; rewrite Hl, Nat.sub_diag; reflexivity.
  - rewrite firstn_app, skipn_app, Hl, Nat.sub_diag, firstn_all2 by lia.
    rewrite (skipn_all2 (firstn j l)) by lia.
    replace (S j - j)%nat with 1%nat by lia; simpl.
    rewrite app_nil_r; apply firstn_skipn.
Qed.

Lemma toggle_at_grouped idx sub subs :
  grouped subs = true -> grouped (toggle_at idx sub subs) = true.
Proof.
  intros H; unfold toggle_at.
  pose proof (grouped_remove subs idx H) as Hr.
  destruct (get_or false (auto_update sub)); simpl.
  - unfold py_insert; rewrite firstn_all, skipn_all; apply grouped_snoc_disabled; auto.
  - rewrite (insert_idx_grouped _ Hr); apply grouped_insert_enabled; auto.
Qed.

Lemma toggle_at_order idx sub subs :
  grouped subs = true ->
  exists j, nth_error (toggle_at idx sub subs) j
              = Some (set_auto_update (negb (get_or false (auto_update sub))) sub)
            /\ remove_nth j (toggle_at idx sub subs) = remove_nth idx subs.
Proof.
  intros H; unfold toggle_at.
  pose proof (grouped_remove subs idx H) as Hr.
  destruct (get_or false (auto_update sub)); simpl.
  - exists (length (remove_nth idx subs)); apply py_insert_remove; lia.
  - rewrite (insert_idx_grouped _ Hr).
    exists (length (filter auto_flag (remove_nth idx subs))); apply py_insert_remove.
    apply filter_length_le.
Qed.

Lemma menu_grouped subs selected ns s out s' :
  grouped subs = true ->
  menu_set_auto_update_selected subs selected ns s = (Ret out, s') -> grouped out = true.
Proof.
  intros H; unfold menu_set_auto_update_selected.
  destruct selected as [|r0 rs]; [ intros E; inversion E; subst; exact H | ].
  destruct (Nat.eqb _ 0); [ intros E; inversion E; subst; exact H | ].
  unfold bind; destruct (load_repos s) as [[v|e] s1]; [ | discriminate ].
  destruct (with_subscriptions v _ s1) as [[reg|e] s2]; [ | discriminate ].
  destruct (save_repos reg s2) as [[[]|e] s3]; [ | discriminate ].
  intros E; inversion E; subst; apply grouped_sort.
Qed.

(** C8: toggling the flag of one record of a grouped list (enabled records
    first) gives a grouped list; the toggled record sits at some index [j],
    and removing it gives back the list without the record, so the order of
    all other records is kept; the list saved to [repos.json] is that list.
    The menu command that sets the flag of several records also leaves a
    grouped list. *)
Theorem toggle_keeps_grouping :
  forall subs r idx sub,
    grouped subs = true ->
    find_index (repo_is r) subs = Some idx -> nth_error subs idx = Some sub ->
    grouped (toggle_at idx sub subs) = true
    /\ (exists j, nth_error (toggle_at idx sub subs) j
                    = Some (set_auto_update (negb (get_or false (auto_update sub))) sub)
                  /\ remove_nth j (toggle_at idx sub subs) = remove_nth idx subs)
    /\ (forall s reg, load_repos s = (Ret (JDict reg), s) ->
          toggle_auto_update subs r s
          = (Ret (toggle_at idx sub subs),
             mkSt (world s) (Some (dump_json env (mkRegistry (Some (toggle_at idx sub subs)))))
                  (trace s ++ [EvSave (dump_json env (mkRegistry (Some (toggle_at idx sub subs))))])))
    /\ (forall selected ns s out s',
          menu_set_auto_update_selected subs selected ns s = (Ret out, s') -> grouped out = true).
Proof.
  intros subs r idx sub Hg Hf Hn.
  split; [ apply toggle_at_grouped; exact Hg | ].
  split; [ apply toggle_at_order; exact Hg | ].
  split.
  - intros s reg Hl; unfold toggle_auto_update; rewrite Hf, Hn.
    unfold bind; rewrite Hl; reflexivity.
  - intros selected ns s out s'; apply menu_grouped; exact Hg.
Qed.

(** ** Registry store *)

(** C9: [load_repos] never raises and leaves the state as it is; when the
    file is missing or does not parse it returns the empty registry, whose
    subscription list is empty. *)
Theorem load_never_raises :
  (forall s, exists v, load_repos s = (Ret v, s))
  /\ (forall s,
        (repos_file s = None \/ exists c, repos_file s = Some c /\ parse_json env c = None) ->
        load_repos s = (Ret (JDict empty_registry), s)
        /\ bind load_repos get_subscriptions s = (Ret [], s)).
Proof.
  split.
  - intros s; unfold load_repos.
    destruct (repos_file s) as [c|]; [ destruct (parse_json env c) | ]; eauto.
  - intros s Hs.
    assert (E : load_repos s = (Ret (JDict empty_registry), s)).
    { unfold load_repos; destruct Hs as [-> | (c & -> & Hp)]; [ reflexivity | rewrite Hp; reflexivity ]. }
    split; [ exact E | unfold bind; rewrite E; reflexivity ].
Qed.

Lemma filter_shorter {A} (f : A -> bool) l :
  Nat.ltb (length (filter (fun x => negb (f x)) l)) (length l) = existsb f l.
Proof.
  induction l as [|x l IH]; [ reflexivity | ]; cbn [filter length existsb].
  destruct (f x); cbn [negb orb].
  - apply Nat.ltb_lt; pose proof (filter_length_le (fun x => negb (f x)) l); lia.
  - exact IH.
Qed.

(** C10: when [load_repos] gives an object, [remove_subscription] returns
    [True] and rewrites [repos.json] (once, with the records of other
    names) exactly when a record [owner/name] exists; otherwise it returns
    [False] and the state, the file included, is unchanged. *)
Theorem remove_subscription_atomic :
  forall owner name s reg,
    load_repos s = (Ret (JDict reg), s) ->
    (existsb (repo_is (owner ++ "/" ++ name)) (get_or [] (subscriptions reg)) = true ->
     remove_subscription owner name s
     = (Ret true,
        let kept := filter (fun x => negb (repo_is (owner ++ "/" ++ name) x))
                           (get_or [] (subscriptions reg)) in
        mkSt (world s) (Some (dump_json env (mkRegistry (Some kept))))
             (trace s ++ [EvSave (dump_json env (mkRegistry (Some kept)))])))
    /\ (existsb (repo_is (owner ++ "/" ++ name)) (get_or [] (subscriptions reg)) = false ->
        remove_subscription owner name s = (Ret false, s)).
Proof.
  intros owner name s reg Hl.
  unfold remove_subscription, bind; rewrite Hl; cbn [get_subscriptions with_subscriptions ret].
  rewrite filter_shorter.
  split; intros E; rewrite E; reflexivity.
Qed.

(** ** Backups before resets across several repositories *)

Lemma reset_guarded_mono l seen seen' :
  incl seen seen' -> reset_guarded seen l = true -> reset_guarded seen' l = true.
Proof.
  induction l as [|e l IH] in seen, seen' |- *; intros Hi H; [ reflexivity | ].
  destruct e as [c args|p|txt]; cbn [reset_guarded] in H |- *.
  - apply andb_true_iff in H as [H1 H2]; rewrite (IH seen seen' Hi H2), andb_true_r.
    apply orb_true_iff in H1 as [H1|H1]; [ rewrite H1; reflexivity | ].
    apply orb_true_iff; right; apply existsb_exists in H1 as [x [Hx Ex]].
    apply existsb_exists; exists x; auto.
  - apply (IH (p :: seen)); [ apply incl_cons; [ left; reflexivity | intros y Hy; right; auto ] | exact H ].
  - apply andb_true_iff in H as [_ H2]; rewrite (IH seen seen' Hi H2); reflexivity.
Qed.

Lemma reset_guarded_app a b seen :
  reset_guarded seen a = true -> reset_guarded [] b = true -> reset_guarded seen (a ++ b) = true.
Proof.
  induction a as [|e a IH] in seen |- *; intros Ha Hb.
  - apply (reset_guarded_mono b []); [ intros y [] | exact Hb ].
  - destruct e as [c args|p|txt]; cbn [reset_guarded app] in Ha |- *.
    + apply andb_true_iff in Ha as [H1 H2]; rewrite H1, (IH seen H2 Hb); reflexivity.
    + apply IH; auto.
    + apply andb_true_iff in Ha as [H1 H2]; rewrite H1, (IH seen H2 Hb); reflexivity.
Qed.

Lemma reset_guarded_noreset seen l : forallb noreset l = true -> reset_guarded seen l = true.
Proof.
  induction l as [|e l IH] in seen |- *; intros H; [ reflexivity | ].
  cbn [forallb] in H; apply andb_true_iff in H as [H1 H2]; unfold noreset in H1.
  destruct e as [c args|p|txt]; cbn [reset_guarded].
  - rewrite H1; cbn [orb andb]; auto.
  - auto.
  - cbn [is_reset negb orb andb]; auto.
Qed.

Lemma reset_guarded_only_in p seen l :
  In p seen -> forallb (resets_only_in p) l = true -> reset_guarded seen l = true.
Proof.
  induction l as [|e l IH] in seen |- *; intros Hp H; [ reflexivity | ].
  cbn [forallb] in H; apply andb_true_iff in H as [H1 H2]; unfold resets_only_in in H1.
  destruct e as [c args|q|txt]; cbn [reset_guarded].
  - rewrite (IH seen Hp H2), andb_true_r.
    apply orb_true_iff in H1 as [H1|H1]; [ rewrite H1; reflexivity | ].
    apply String.eqb_eq in H1; subst c.
    apply orb_true_iff; right; apply existsb_exists; exists p; split; auto; apply String.eqb_refl.
  - apply IH; [ right; exact Hp | exact H2 ].
  - apply IH; auto.
Qed.

Lemma guarded_of_stays {A} (m : M A) : stays noreset m -> guarded m.
Proof.
  intros Hm s r s' H; destruct (Hm _ _ _ H) as [n [T F]]; exists n; split; auto.
  apply reset_guarded_noreset; exact F.
Qed.

Lemma guarded_bind {A B} (m : M A) (k : A -> M B) :
  guarded m -> (forall a, guarded (k a)) -> guarded (bind m k).
Proof.
  intros Hm Hk s r s' H; unfold bind in H.
  destruct (m s) as [[a|e] s1] eqn:E.
  - destruct (Hm _ _ _ E) as [n1 [T1 F1]].
    destruct (Hk a _ _ _ H) as [n2 [T2 F2]].
    exists (n1 ++ n2)%list; rewrite T2, T1, app_assoc; split; auto.
    apply reset_guarded_app; auto.
  - inversion H; subst; exact (Hm _ _ _ E).
Qed.

Lemma guarded_backup {B} p (k : bool * string -> M B) :
  (forall a, stays (resets_only_in p) (k a)) -> guarded (bind (gui_backup_local_folder p) k).
Proof.
  intros Hk s r s' H; unfold bind in H.
  destruct (backup_step p s) as (a & s1 & E & T1).
  rewrite E in H.
  destruct (Hk a _ _ _ H) as [n2 [T2 F2]].
  exists (EvBackup p :: n2); rewrite T2, T1, <- app_assoc; split; [ reflexivity | ].
  cbn [reset_guarded]; apply (reset_guarded_only_in p); [ left; reflexivity | exact F2 ].
Qed.

Lemma stays_reset_in lp br :
  stays (resets_only_in lp) (run_git ["reset"; "--hard"; ("origin/" ++ br)%string] lp).
Proof. apply stays_run_git; unfold resets_only_in; cbn [is_reset negb orb]; apply String.eqb_refl. Qed.

(** In the GUI recovery, the reset runs after a backup of the same
    directory. *)
Lemma gui_recovery_guarded rf lp br tok : guarded (gui_auto_recover_and_pull rf lp br tok).
Proof.
  unfold gui_auto_recover_and_pull.
  apply guarded_bind; [ apply guarded_of_stays; unfold gui_log_git_status_summary; stays_tac | intros _ ].
  apply guarded_bind; [ apply guarded_of_stays; unfold abort_merge; stays_tac | intros _ ].
  apply guarded_bind; [ apply guarded_of_stays; unfold gui_pull_with_token; stays_tac | intros [ok out] ].
  destruct ok; [ apply guarded_of_stays; stays_tac | ].
  apply guarded_bind;
    [ apply guarded_of_stays; unfold conflict_or_unmerged, has_unmerged_paths; stays_tac | intros c ].
  destruct c; simpl; [ | apply guarded_of_stays; stays_tac ].
  apply guarded_backup; intros _.
  apply stays_bind; [ apply stays_run_git; reflexivity | intros [okf outf] ].
  destruct okf; [ | apply stays_ret ]. cbn [negb].
  apply stays_bind;
    [ unfold hard_reset_to_remote; apply stays_bind; [ apply stays_reset_in | intros [ok2 out2]; stays_tac ]
    | intros [ok3 out3] ].
  destruct ok3; [ | apply stays_ret ]. cbn [negb].
  unfold gui_pull_with_token; stays_tac.
Qed.

Lemma stays_hard_reset_in lp br : stays (resets_only_in lp) (hard_reset_to_remote lp br).
Proof.
  unfold hard_reset_to_remote; apply stays_bind; [ apply stays_reset_in | intros [ok out]; stays_tac ].
Qed.

Lemma store_noreset r sha : stays noreset (gui_store_last_commit r sha).
Proof. unfold gui_store_last_commit, get_subscriptions, update_in_place; stays_tac. Qed.

Lemma gui_update_last_commit_noreset o n sha : stays noreset (gui_update_last_commit o n sha).
Proof. unfold gui_update_last_commit, get_subscriptions, update_in_place; stays_tac. Qed.

Lemma local_commit_noreset lp : stays noreset (get_local_commit lp).
Proof. unfold get_local_commit; stays_tac. Qed.

Lemma single_act_guarded r lp br tok behind ahead : guarded (single_act r lp br tok behind ahead).
Proof.
  unfold single_act.
  destruct ((behind =? 0)%N && (ahead =? 0)%N); [ apply guarded_of_stays; stays_tac | ].
  destruct ((behind =? 0)%N && (0 <? ahead)%N).
  - apply guarded_backup; intros _.
    apply stays_bind; [ apply stays_hard_reset_in | intros [ok out] ].
    destruct ok; cbn [negb]; [ | apply stays_ret ].
    apply stays_bind; [ unfold get_local_commit; stays_tac | intros nc ].
    destruct (Str.truthy nc); [ | apply stays_ret ].
    unfold gui_store_last_commit, get_subscriptions, update_in_place; stays_tac.
  - apply guarded_bind; [ apply guarded_of_stays; unfold gui_pull_with_token; stays_tac | intros [ok out] ].
    destruct ok.
    + apply guarded_of_stays; apply stays_bind; [ apply local_commit_noreset | intros nc ].
      destruct (Str.truthy nc); [ apply store_noreset | apply stays_ret ].
    + apply guarded_bind;
        [ apply guarded_of_stays; unfold conflict_or_unmerged, has_unmerged_paths; stays_tac | intros c ].
      destruct c; [ | apply guarded_of_stays; stays_tac ].
      apply guarded_bind; [ apply gui_recovery_guarded | intros [ok2 out2] ].
      destruct ok2; [ | apply guarded_of_stays; stays_tac ].
      apply guarded_of_stays; apply stays_bind; [ apply local_commit_noreset | intros nc ].
      destruct (Str.truthy nc); [ apply store_noreset | apply stays_ret ].
Qed.

Lemma single_probe_noreset subs r tok : stays noreset (single_probe subs r tok).
Proof.
  unfold single_probe, get_local_commit, get_remote_commit, get_behind_ahead_count; stays_tac.
Qed.

Lemma check_and_update_single_guarded subs r tok : guarded (check_and_update_single subs r tok).
Proof.
  unfold check_and_update_single.
  apply guarded_bind; [ apply guarded_of_stays, single_probe_noreset | intros p ].
  destruct p as [[[[[[lp br] lc] rc] behind] ahead]|]; [ apply single_act_guarded | ].
  apply guarded_of_stays; stays_tac.
Qed.

Lemma gui_sync_one_guarded subs tok r : guarded (gui_sync_one subs tok r).
Proof.
  unfold gui_sync_one.
  destruct (lookup_sub subs r) as [sub|]; [ | apply guarded_of_stays; stays_tac ].
  apply guarded_bind; [ apply guarded_of_stays; stays_tac | intros e ].
  destruct e; cbn [negb]; [ | apply guarded_of_stays; stays_tac ].
  apply guarded_bind; [ apply guarded_of_stays; stays_tac | intros [owner name] ].
  apply guarded_bind; [ apply guarded_of_stays; unfold gui_pull_with_token; stays_tac | intros [ok out] ].
  destruct ok.
  - apply guarded_of_stays; apply stays_bind; [ apply local_commit_noreset | intros nc ].
    apply stays_bind; [ destruct (Str.truthy nc); [ apply gui_update_last_commit_noreset | apply stays_ret ] | intros _ ].
    apply stays_ret.
  - apply guarded_bind;
      [ apply guarded_of_stays; unfold conflict_or_unmerged, has_unmerged_paths; stays_tac | intros c ].
    destruct c; [ | apply guarded_of_stays; stays_tac ].
    apply guarded_bind; [ apply gui_recovery_guarded | intros [ok2 out2] ].
    destruct ok2; [ | apply guarded_of_stays; stays_tac ].
    apply guarded_of_stays; apply stays_bind; [ apply local_commit_noreset | intros nc ].
    apply stays_bind; [ destruct (Str.truthy nc); [ apply gui_update_last_commit_noreset | apply stays_ret ] | intros _ ].
    apply stays_ret.
Qed.

Lemma sync_repos_loop_guarded subs tok repos u e : guarded (sync_repos_loop subs tok repos u e).
Proof.
  induction repos as [|r rest IH] in u, e |- *; cbn [sync_repos_loop].
  - apply guarded_of_stays; apply stays_ret.
  - apply guarded_bind; [ apply gui_sync_one_guarded | intros [du de]; apply IH ].
Qed.

Lemma check_updates_thread_noreset tok subs : stays noreset (check_updates_thread tok subs).
Proof.
  induction subs as [|sub rest IH]; cbn [check_updates_thread]; [ apply stays_ret | ].
  apply stays_bind; [ unfold check_one, get_local_commit, get_remote_commit; stays_tac | intros x ].
  apply stays_bind; [ exact IH | intros xs; apply stays_ret ].
Qed.

(** ** Values returned *)

Lemma returns_ret {A} (Q : A -> Prop) a : Q a -> returns Q (ret a).
Proof. intros H s x s' E; inversion E; subst; exact H. Qed.

Lemma returns_bind {A B} (Q : B -> Prop) (m : M A) (k : A -> M B) :
  (forall a, returns Q (k a)) -> returns Q (bind m k).
Proof.
  intros Hk s b s' H; unfold bind in H.
  destruct (m s) as [[a|e] s1]; [ exact (Hk a _ _ _ H) | discriminate ].
Qed.

Ltac returns_tac :=
  repeat first
    [ apply returns_ret
    | apply returns_bind; let x := fresh "x" in intros x;
        repeat match goal with p : (_ * _)%type |- _ => destruct p end
    | match goal with
      | |- returns _ (if ?b then _ else _) => destruct b
      | |- returns _ (match ?b with _ => _ end) => destruct b
      end ].

(** One name of [_sync_repos] counts once, as updated or as an error, when
    it names a record, and not at all otherwise. *)
Lemma gui_sync_one_counts subs tok r :
  returns (fun '(du, de) =>
             (du + de = if lookup_sub subs r then 1 else 0)%Z /\ (0 <= du)%Z /\ (0 <= de)%Z)
          (gui_sync_one subs tok r).
Proof.
  unfold gui_sync_one.
  destruct (lookup_sub subs r) as [sub|]; returns_tac; lia.
Qed.

Lemma sync_repos_loop_counts subs tok repos u0 e0 s u e s' :
  sync_repos_loop subs tok repos u0 e0 s = (Ret (u, e), s') ->
  (u + e = u0 + e0 + Z.of_nat (length (filter (fun r => if lookup_sub subs r then true else false) repos)))%Z
  /\ ((0 <= u0)%Z -> (0 <= e0)%Z -> (0 <= u)%Z /\ (0 <= e)%Z).
Proof.
  induction repos as [|r rest IH] in u0, e0, s |- *; cbn [sync_repos_loop].
  - intros H; inversion H; subst; cbn [filter length]; split; [ lia | auto ].
  - intros H; unfold bind in H.
    destruct (gui_sync_one subs tok r s) as [[[du de]|exn] s1] eqn:E; [ | discriminate ].
    pose proof (gui_sync_one_counts subs tok r _ _ _ E) as [Hsum [Hu He]].
    destruct (IH _ _ _ H) as [Hs Hp].
    cbn [filter]; destruct (lookup_sub subs r); cbn [length] in Hsum, Hs |- *;
      split; [ rewrite Hs; lia | intros; apply Hp; lia | rewrite Hs; lia | intros; apply Hp; lia ].
Qed.

(** ** Reclone *)

Lemma string_app_assoc (a b c : string) : ((a ++ b) ++ c)%string = (a ++ (b ++ c))%string.
Proof. induction a; simpl; congruence. Qed.

Lemma prefix_app (p x : string) : String.prefix p (p ++ x) = true.
Proof.
  induction p as [|c r IH]; simpl; [ destruct x; reflexivity | ].
  destruct (ascii_dec c c); [ exact IH | congruence ].
Qed.

Lemma stays_delete_folder P lp : stays P (gui_delete_folder_tree lp).
Proof.
  unfold gui_delete_folder_tree; apply stays_bind; [ apply stays_exists_path | intros e ].
  destruct e; cbn [negb]; [ | apply stays_ret ].
  intros s r s' H; destruct (delete_tree lp (world s)) as [[ok out] w']; inversion H; subst.
  exists []; rewrite app_nil_r; auto.
Qed.

Lemma stays_clone_repo tok r lp :
  tok <> "" ->
  stays (fun e => keeps_origin e && clone_with_token tok e) (clone_repo r lp tok).
Proof.
  intros Ht; unfold clone_repo.
  destruct (Str.split_slash r) as [|owner [|name [|x rest]]]; try apply stays_ret.
  apply stays_bind.
  - destruct (String.eqb (dirname lp) ""); [ apply stays_ret | ].
    apply stays_bind; [ apply stays_exists_path | intros e ].
    destruct e; [ apply stays_ret | ].
    intros s x s' H; destruct (make_dirs (dirname lp) (world s)) as [w'|]; inversion H; subst;
      exists []; rewrite ?app_nil_r; auto.
  - intros _; apply stays_run_git.
    replace (String.eqb tok "") with false by (symmetry; apply String.eqb_neq; exact Ht).
    unfold keeps_origin, clone_with_token, token_url; cbn [set_origin String.eqb andb].
    rewrite <- (string_app_assoc tok "@github.com/"), <- (string_app_assoc "https://").
    apply prefix_app.
Qed.

Lemma reclone_loop_stays tok subs repos okc fc :
  tok <> "" ->
  stays (fun e => keeps_origin e && clone_with_token tok e) (reclone_loop subs tok repos okc fc).
Proof.
  intros Ht; induction repos as [|r rest IH] in okc, fc |- *; cbn [reclone_loop]; [ apply stays_ret | ].
  apply stays_bind; [ | intros ok; destruct ok; apply IH ].
  unfold reclone_one; destruct (lookup_sub subs r) as [sub|]; [ | apply stays_ret ].
  destruct (String.eqb (get_or "" (local_path sub)) ""); [ apply stays_ret | ].
  apply stays_bind; [ apply stays_delete_folder | intros [ok_del out_del] ].
  destruct ok_del; cbn [negb]; [ | apply stays_ret ].
  apply stays_bind; [ apply stays_clone_repo; exact Ht | intros [ok_clone out_clone] ].
  destruct ok_clone; cbn [negb]; [ | apply stays_ret ].
  unfold get_local_commit, gui_store_last_commit, get_subscriptions, update_in_place; stays_tac.
Qed.

(** ** Reordering by drag and drop *)

Lemma nth_error_split {A} (l : list A) n x :
  nth_error l n = Some x -> l = (firstn n l ++ x :: skipn (S n) l)%list.
Proof.
  induction l as [|y r IH] in n |- *; destruct n; simpl; try discriminate.
  - intros H; inversion H; reflexivity.
  - intros H; f_equal; exact (IH n H).
Qed.

Lemma remove_nth_perm {A} (l : list A) n x :
  nth_error l n = Some x -> Permutation l (x :: remove_nth n l).
Proof.
  intros H; rewrite (nth_error_split l n x H) at 1; unfold remove_nth.
  apply Permutation_sym, Permutation_middle.
Qed.

Lemma py_insert_perm {A} i (x : A) l : Permutation (py_insert i x l) (x :: l).
Proof.
  unfold py_insert; rewrite <- (firstn_skipn i l) at 3.
  apply Permutation_sym, Permutation_middle.
Qed.

Lemma move_perm {A} (l : list A) si ti x :
  nth_error l si = Some x -> Permutation (py_insert ti x (remove_nth si l)) l.
Proof.
  intros H; eapply perm_trans; [ apply py_insert_perm | ].
  apply Permutation_sym, remove_nth_perm; exact H.
Qed.

Lemma map_py_insert {A B} (f : A -> B) i x l : map f (py_insert i x l) = py_insert i (f x) (map f l).
Proof. unfold py_insert; rewrite map_app, firstn_map; cbn [map]; rewrite skipn_map; reflexivity. Qed.

Lemma map_remove_nth {A B} (f : A -> B) n l : map f (remove_nth n l) = remove_nth n (map f l).
Proof. unfold remove_nth; rewrite map_app, firstn_map, skipn_map; reflexivity. Qed.

Lemma lookup_rows subs l :
  (forall x, In x l -> lookup_sub subs (row_id x) = Some x) ->
  flat_map (fun item => match lookup_sub subs item with Some x => [x] | None => [] end)
           (map row_id l) = l.
Proof.
  induction l as [|x r IH]; intros H; [ reflexivity | ].
  cbn [map flat_map]; rewrite (H x (or_introl eq_refl)), IH; [ reflexivity | ].
  intros y Hy; apply H; right; exact Hy.
Qed.

Lemma find_index_eqb a items i : find_index (String.eqb a) items = Some i -> nth_error items i = Some a.
Proof.
  induction items as [|b r IH] in i |- *; cbn [find_index]; [ discriminate | ].
  destruct (String.eqb a b) eqn:E.
  - intros H; inversion H; subst; apply String.eqb_eq in E; subst; reflexivity.
  - destruct (find_index (String.eqb a) r) as [j|]; cbn [option_map]; intros H; inversion H; subst.
    apply IH; reflexivity.
Qed.

Lemma count_enabled_zero l : count_enabled l = 0%nat -> forallb (fun y => negb (auto_flag y)) l = true.
Proof.
  unfold count_enabled; induction l as [|x r IH]; [ reflexivity | ]; cbn [filter forallb].
  destruct (auto_flag x); cbn [length negb andb]; [ discriminate | exact IH ].
Qed.

Lemma grouped_py_insert m i x :
  grouped m = true ->
  (auto_flag x = true -> (i <= count_enabled m)%nat) ->
  (auto_flag x = false -> (count_enabled m <= i)%nat) ->
  grouped (py_insert i x m) = true.
Proof.
  unfold count_enabled.
  induction m as [|y r IH] in i |- *; intros Hg H1 H2.
  - unfold py_insert; destruct i; cbn [firstn skipn app grouped];
      destruct (auto_flag x); reflexivity.
  - destruct i as [|j].
    + change (py_insert 0 x (y :: r)) with (x :: y :: r); cbn [grouped].
      destruct (auto_flag x) eqn:Ex; [ exact Hg | ].
      apply count_enabled_zero; unfold count_enabled; specialize (H2 eq_refl); lia.
    + change (py_insert (S j) x (y :: r)) with (y :: py_insert j x r).
      cbn [grouped] in Hg |- *; cbn [filter] in H1, H2.
      destruct (auto_flag y) eqn:Ey.
      * cbn [length] in H1, H2; apply IH; [ exact Hg | intros E; specialize (H1 E); lia
                                           | intros E; specialize (H2 E); lia ].
      * destruct (auto_flag x) eqn:Ex.
        -- specialize (H1 eq_refl); rewrite (filter_disabled r Hg) in H1; cbn [length] in H1; lia.
        -- unfold py_insert; rewrite forallb_app; cbn [forallb].
           rewrite (forallb_firstn _ _ _ Hg), (forallb_skipn _ _ _ Hg), Ex; reflexivity.
Qed.

Lemma grouped_enabled_idx l i y :
  grouped l = true -> nth_error l i = Some y -> auto_flag y = true -> (i < count_enabled l)%nat.
Proof.
  unfold count_enabled.
  induction l as [|z r IH] in i |- *; destruct i as [|j]; cbn [nth_error]; try discriminate.
  - intros _ H Hy; inversion H; subst; cbn [filter]; rewrite Hy; cbn [length]; lia.
  - cbn [grouped filter]; intros Hg H Hy; destruct (auto_flag z).
    + cbn [length]; specialize (IH j Hg H Hy); lia.
    + exfalso; apply nth_error_In in H.
      apply forallb_forall with (x := y) in Hg; [ | exact H ]; rewrite Hy in Hg; discriminate.
Qed.

Lemma grouped_disabled_idx l i y :
  grouped l = true -> nth_error l i = Some y -> auto_flag y = false -> (count_enabled l <= i)%nat.
Proof.
  unfold count_enabled.
  induction l as [|z r IH] in i |- *; destruct i as [|j]; cbn [nth_error]; try discriminate.
  - intros Hg H Hy; inversion H; subst; cbn [grouped filter] in Hg |- *; rewrite Hy in Hg |- *.
    rewrite (filter_disabled r Hg); cbn [length]; lia.
  - cbn [grouped filter]; intros Hg H Hy; destruct (auto_flag z).
    + cbn [length]; specialize (IH j Hg H Hy); lia.
    + rewrite (filter_disabled r Hg); cbn [length]; lia.
Qed.

Lemma count_enabled_remove l n x :
  nth_error l n = Some x ->
  (count_enabled (remove_nth n l) + (if auto_flag x then 1 else 0) = count_enabled l)%nat.
Proof.
  intros H; unfold count_enabled, remove_nth.
  rewrite (nth_error_split l n x H) at 3.
  rewrite !filter_app, !length_app; cbn [filter].
  destruct (auto_flag x); cbn [length]; lia.
Qed.

Lemma grouped_move l si ti x y :
  grouped l = true -> nth_error l si = Some x -> nth_error l ti = Some y ->
  auto_flag x = auto_flag y ->
  grouped (py_insert ti x (remove_nth si l)) = true.
Proof.
  intros Hg Hx Hy Hf.
  pose proof (count_enabled_remove l si x Hx) as Hc.
  apply grouped_py_insert; [ apply grouped_remove; exact Hg | | ].
  - intros E; rewrite E in Hc; rewrite E in Hf.
    pose proof (grouped_enabled_idx l ti y Hg Hy (eq_sym Hf)); lia.
  - intros E; rewrite E in Hc; rewrite E in Hf.
    pose proof (grouped_disabled_idx l ti y Hg Hy (eq_sym Hf)); lia.
Qed.

Lemma try_then_ret {A} (m : M unit) (a : A) s out s' :
  bind (try_except m (ret tt)) (fun _ => ret a) s = (Ret out, s') -> out = a.
Proof. unfold bind, try_except; destruct (m s) as [[[]|e] s1]; intros H; inversion H; reflexivity. Qed.

Lemma nth_error_rows l n a :
  nth_error (map row_id l) n = Some a -> exists x, nth_error l n = Some x /\ row_id x = a.
Proof.
  rewrite nth_error_map; destruct (nth_error l n) as [x|]; cbn [option_map]; intros H; inversion H; eauto.
Qed.

(** X1: a drag and drop in the tree ([_reorder_items]) keeps every record:
    when the rows of the tree are the records (in any order) and their ids
    name them, the new [self.subscriptions] is a permutation of the old
    one.  If moreover the tree shows the records grouped (enabled ones
    first, as [refresh_list] sorts them), a list that changes is grouped as
    well: a move across the groups is refused, a move inside a group keeps
    the groups apart. *)
Theorem reorder_keeps_records_grouped :
  forall subs l src tgt s out s',
    Permutation l subs ->
    (forall x, In x subs -> lookup_sub subs (row_id x) = Some x) ->
    reorder_items subs (map row_id l) src tgt s = (Ret out, s') ->
    Permutation out subs /\ (grouped l = true -> out = subs \/ grouped out = true).
Proof.
  intros subs l src tgt s out s' Hp Hl H.
  unfold reorder_items in H.
  destruct (lookup_sub subs src) as [ss|] eqn:Es;
    [ | inversion H; subst; split; [ apply Permutation_refl | intros _; left; reflexivity ] ].
  destruct (lookup_sub subs tgt) as [ts|] eqn:Et;
    [ | inversion H; subst; split; [ apply Permutation_refl | intros _; left; reflexivity ] ].
  destruct (negb (Bool.eqb (auto_flag ss) (auto_flag ts))) eqn:Eg;
    [ inversion H; subst; split; [ apply Permutation_refl | intros _; left; reflexivity ] | ].
  destruct (find_index (String.eqb src) (map row_id l)) as [si|] eqn:Fi;
    [ | inversion H; subst; split; [ apply Permutation_refl | intros _; left; reflexivity ] ].
  destruct (find_index (String.eqb tgt) (map row_id l)) as [ti|] eqn:Ft;
    [ | inversion H; subst; split; [ apply Permutation_refl | intros _; left; reflexivity ] ].
  apply try_then_ret in H; subst out.
  destruct (nth_error_rows l si src (find_index_eqb _ _ _ Fi)) as [x [Hx Rx]].
  destruct (nth_error_rows l ti tgt (find_index_eqb _ _ _ Ft)) as [y [Hy Ry]].
  assert (Hin : forall z, In z l -> lookup_sub subs (row_id z) = Some z).
  { intros z Hz; apply Hl; exact (Permutation_in _ Hp Hz). }
  rewrite (nth_error_nth (map row_id l) si "" (find_index_eqb _ _ _ Fi)), <- Rx.
  rewrite <- map_remove_nth, <- map_py_insert, lookup_rows.
  - split; [ eapply perm_trans; [ apply (move_perm l si ti x Hx) | exact Hp ] | intros Hg; right ].
    apply (grouped_move l si ti x y Hg Hx Hy).
    rewrite <- Rx, (Hin x (nth_error_In _ _ Hx)) in Es.
    rewrite <- Ry, (Hin y (nth_error_In _ _ Hy)) in Et.
    inversion Es; inversion Et; subst.
    apply negb_false_iff, Bool.eqb_prop in Eg; exact Eg.
  - intros z Hz; apply Hin.
    exact (Permutation_in _ (move_perm l si ti x Hx) Hz).
Qed.

(** X2: every update path of the GUI - the update of a list of names
    ([_sync_repos], also behind the context menu's update), the check with
    automatic update ([_check_and_auto_update_thread]) and the update of the
    selected rows ([_check_and_update_selected_thread]) - runs each
    [git reset --hard] in a directory only after a backup of that same
    directory in the same run. *)
Theorem gui_updates_back_up_before_reset :
  forall subs tok repos,
    guarded (gui_sync_repos subs tok repos)
    /\ guarded (check_and_auto_update_thread subs tok)
    /\ guarded (check_and_update_selected subs tok repos).
Proof.
  intros subs tok repos; split; [ apply sync_repos_loop_guarded | split ].
  - unfold check_and_auto_update_thread.
    apply guarded_bind; [ apply guarded_of_stays, check_updates_thread_noreset | intros results ].
    destruct (auto_update_targets subs results) as [|t ts].
    + apply guarded_of_stays, stays_ret.
    + apply guarded_bind; [ apply sync_repos_loop_guarded | intros n; apply guarded_of_stays, stays_ret ].
  - induction repos as [|r rest IH]; cbn [check_and_update_selected];
      [ apply guarded_of_stays, stays_ret | ].
    apply guarded_bind; [ apply check_and_update_single_guarded | intros _; exact IH ].
Qed.

(** X3: when [_sync_repos] finishes, [updated + errors] is the number of
    names it was given that name a record, and neither counter is
    negative: each such name counts once, a recovery that succeeds moves its
    error back to [updated]. *)
Theorem gui_sync_repos_counts :
  forall subs tok repos s u e s',
    gui_sync_repos subs tok repos s = (Ret (u, e), s') ->
    (u + e = Z.of_nat (length (filter (fun r => if lookup_sub subs r then true else false) repos)))%Z
    /\ (0 <= u)%Z /\ (0 <= e)%Z.
Proof.
  intros subs tok repos s u e s' H.
  destruct (sync_repos_loop_counts subs tok repos 0 0 s u e s' H) as [Hs Hp].
  split; [ lia | apply Hp; lia ].
Qed.

(** X4: recloning ([_reclone_selected_thread]) never runs
    [git remote set-url origin], and with a token every clone it runs uses
    the URL [https://{token}@github.com/...]: the token stays in the
    [origin] URL of the new clone. *)
Theorem reclone_keeps_token_url :
  forall subs tok repos s r s',
    tok <> "" ->
    reclone_selected_thread subs tok repos s = (r, s') ->
    exists new, trace s' = (trace s ++ new)%list
                /\ forallb keeps_origin new = true
                /\ forallb (clone_with_token tok) new = true.
Proof.
  intros subs tok repos s r s' Ht H.
  destruct (reclone_loop_stays tok subs repos 0 0 Ht _ _ _ H) as [n [T F]].
  exists n; split; [ exact T | ].
  rewrite forallb_forall in F; split; apply forallb_forall; intros e He;
    specialize (F e He); apply andb_true_iff in F as [F1 F2]; assumption.
Qed.

(** X5: the automatic update after the check only takes records whose
    ["auto_update"] is [true] in the file and whose check found an update.
    A record without the key is checked exactly as if the key were [true]
    (the check pass runs the same), yet the selection drops it: where the
    same record with the key [true] would be selected, it is not. *)
Theorem auto_update_needs_explicit_flag :
  (forall subs results r,
    In r (auto_update_targets subs results) ->
    exists sub, In sub subs /\ row_id sub = r /\ auto_update sub = Some true
                /\ exists c, result_of results r = Some c /\ c_status c = "update-available")
  /\ (forall x, auto_update x = None ->
      (forall token pre post,
         check_updates_thread token (pre ++ x :: post)
         = check_updates_thread token (pre ++ set_auto_update true x :: post))
      /\ (forall pre post results,
            auto_update_targets (pre ++ x :: post) results
            = (auto_update_targets pre results ++ auto_update_targets post results)%list
            /\ (forall c, result_of results (row_id x) = Some c ->
                          c_status c = "update-available" ->
                          auto_update_targets (pre ++ set_auto_update true x :: post) results
                          = (auto_update_targets pre results
                             ++ row_id x :: auto_update_targets post results)%list))).
Proof.
  split.
  - intros subs results r; induction subs as [|sub rest IH]; cbn [auto_update_targets]; [ intros [] | ].
    destruct (get_or false (auto_update sub)) eqn:Ea; cbn [andb].
    + destruct (result_of results (get_or "" (repo sub))) as [c|] eqn:Er.
      * destruct (String.eqb (c_status c) "update-available") eqn:Ec.
        -- intros [Hr|Hr].
           ++ exists sub; split; [ left; reflexivity | ]; split; [ exact Hr | ]; split.
              ** destruct (auto_update sub) as [[]|]; cbn in Ea; congruence.
              ** exists c; subst r; unfold row_id; split; [ exact Er | apply String.eqb_eq; exact Ec ].
           ++ destruct (IH Hr) as [x [Hx Rest]]; exists x; split; [ right; exact Hx | exact Rest ].
        -- intros Hr; destruct (IH Hr) as [x [Hx Rest]]; exists x; split; [ right; exact Hx | exact Rest ].
      * intros Hr; destruct (IH Hr) as [x [Hx Rest]]; exists x; split; [ right; exact Hx | exact Rest ].
    + intros Hr; destruct (IH Hr) as [x [Hx Rest]]; exists x; split; [ right; exact Hx | exact Rest ].
  - intros [r lp br ad lc au] Hx; cbn in Hx; subst au; split.
    + intros token pre post; induction pre as [|y pre IH]; cbn [app check_updates_thread];
        [ reflexivity | rewrite IH; reflexivity ].
    + intros pre post results; split.
      * induction pre as [|y pre IH]; cbn [app auto_update_targets]; [ reflexivity | ].
        rewrite IH; destruct (_ && _); reflexivity.
      * intros c Hr Hc; induction pre as [|y pre IH]; cbn [app auto_update_targets].
        -- unfold row_id in Hr; cbn [set_auto_update repo get_or] in *; cbn [andb].
           rewrite Hr, Hc; reflexivity.
        -- rewrite IH; destruct (_ && _); reflexivity.
Qed.

(** X6: a record whose folder and [.git] exist but whose name does not split
    into exactly two parts at ["/"] makes [repo.split("/")] raise
    [ValueError]: in [sync_all] when it is the first record, in the check of
    [_check_and_auto_update_thread] when it is the first record and not
    switched off, and in [_sync_repos] when it is the first name.  Nothing
    after it is processed and nothing is run or written. *)
Theorem malformed_name_stops_the_run :
  forall sub rest tok s,
    path_exists env (get_or "" (local_path sub)) (world s) = true ->
    path_exists env (path_join (get_or "" (local_path sub)) ".git") (world s) = true ->
    length (Str.split_slash (row_id sub)) <> 2%nat ->
    (forall reg, load_repos s = (Ret (JDict reg), s) -> subscriptions reg = Some (sub :: rest) ->
       sync_all tok s = (Exc "ValueError", s))
    /\ (auto_flag sub = true ->
        check_and_auto_update_thread (sub :: rest) tok s = (Exc "ValueError", s))
    /\ (forall subs names, lookup_sub subs (row_id sub) = Some sub ->
        gui_sync_repos subs tok (row_id sub :: names) s = (Exc "ValueError", s)).
Proof.
  intros sub rest tok s He Hg Hl.
  assert (Hs : forall A (k : string * string -> M A),
             bind (split_repo (row_id sub)) k s = (Exc "ValueError", s)).
  { intros A k; unfold split_repo, bind, raise.
    destruct (Str.split_slash (row_id sub)) as [|a [|b [|c l]]]; try reflexivity.
    exfalso; apply Hl; reflexivity. }
  unfold row_id in *.
  split; [ | split ].
  - intros reg Hload Hsub. unfold sync_all.
    unfold bind at 1; rewrite Hload.
    cbn [get_subscriptions]; unfold ret, bind at 1; rewrite Hsub; cbn [get_or].
    cbn [sync_each]; unfold bind at 1.
    unfold sync_repository; unfold bind at 1, exists_path; rewrite He; cbn [negb].
    unfold bind at 1; rewrite Hg; cbn [negb].
    rewrite Hs; reflexivity.
  - intros Ha. unfold check_and_auto_update_thread, gui_sync_repos.
    cbn [check_updates_thread]; unfold bind at 1 2 3.
    unfold check_one; rewrite Ha; cbn [negb].
    unfold bind at 1, exists_path; rewrite He; cbn [negb].
    unfold bind at 1; rewrite Hg; cbn [negb].
    rewrite Hs; reflexivity.
  - intros subs names Hk. unfold gui_sync_repos; cbn [sync_repos_loop].
    unfold bind at 1, gui_sync_one; rewrite Hk.
    unfold bind at 1, exists_path; rewrite He; cbn [negb].
    rewrite Hs; reflexivity.
Qed.

Lemma load_repos_state (s : St) : exists v, load_repos s = (Ret v, s).
Proof.
  unfold load_repos; destruct (repos_file s) as [c|];
    [ destruct (parse_json env c) | ]; eexists; reflexivity.
Qed.

(** X7: [remove_repo] without [--delete-local] never touches the files of
    the machine: whatever it returns, only the registry file and the log of
    what it saved can change. *)
Theorem remove_repo_keeps_folders :
  forall inp s r s',
    remove_repo inp false s = (r, s') -> world s' = world s.
Proof.
  intros inp s r s' H.
  unfold remove_repo in H.
  destruct (Text.parse_repo_input inp) as [[owner name]|]; [ | inversion H; reflexivity ].
  unfold bind at 1 in H; destruct (load_repos_state s) as [v Hv]; rewrite Hv in H.
  destruct v as [reg|]; cbn [get_subscriptions] in H; unfold bind, ret, raise in H;
    [ | inversion H; reflexivity ].
  destruct (find_subscription _ _) as [sub|]; [ | inversion H; reflexivity ].
  unfold remove_subscription, bind at 1 in H; rewrite Hv in H.
  cbn [get_subscriptions with_subscriptions] in H; unfold bind, ret in H;
  cbv beta iota zeta in H.
  destruct (Nat.ltb _ _); unfold save_repos in H; cbn [andb] in H;
    inversion H; reflexivity.
Qed.

(** X8: when [remove_repo] reports success, the name it parsed named a
    record, and the registry file now holds a ["subscriptions"] list with no
    record of that name (every duplicate is dropped). *)
Theorem remove_repo_true_drops_every_record :
  forall inp dl s s',
    remove_repo inp dl s = (Ret true, s') ->
    exists owner name reg,
      Text.parse_repo_input inp = Some (owner, name)
      /\ repos_file s' = Some (dump_json env reg)
      /\ (exists kept, subscriptions reg = Some kept
                       /\ forall x, In x kept -> repo_is (owner ++ "/" ++ name) x = false).
Proof.
  intros inp dl s s' H.
  unfold remove_repo in H.
  destruct (Text.parse_repo_input inp) as [[owner name]|]; [ | discriminate H ].
  exists owner, name.
  unfold bind at 1 in H; destruct (load_repos_state s) as [v Hv]; rewrite Hv in H.
  destruct v as [reg|]; cbn [get_subscriptions] in H; unfold bind, ret, raise in H;
    [ | discriminate H ].
  destruct (find_subscription _ _) as [sub|]; [ | discriminate H ].
  unfold remove_subscription, bind at 1 in H; rewrite Hv in H.
  cbn [get_subscriptions with_subscriptions] in H; unfold bind, ret in H;
  cbv beta iota zeta in H.
  set (kept := filter _ _) in H.
  exists (mkRegistry (Some kept)).
  assert (Hk : forall x, In x kept -> repo_is (owner ++ "/" ++ name) x = false).
  { intros x Hx; apply filter_In in Hx as [_ Hx]; apply negb_true_iff in Hx; exact Hx. }
  destruct (Nat.ltb _ _); [ | discriminate H ].
  unfold save_repos in H; cbn [world repos_file trace] in H.
  destruct (dl && _); [ unfold exists_path in H; destruct (path_exists _ _ _) | ].
  all: inversion H; subst; cbn.
  all: split; [ reflexivity | split; [ reflexivity | exists kept; split; [ reflexivity | exact Hk ] ] ].
Qed.

End Engine.

(** ** Input parsing and the [.env] file *)

Lemma string_app_nil_r (a : string) : a ++ "" = a.
Proof. induction a; simpl; congruence. Qed.


Lemma lstrip_length (s : string) : (String.length (Text.lstrip s) <= String.length s)%nat.
Proof. induction s; simpl; [lia|]. destruct (Text.is_space a); simpl; lia. Qed.

Lemma lstrip_app (a b : string) :
  a <> "" -> Text.lstrip a = a -> Text.lstrip (a ++ b) = a ++ b.
Proof.
  destruct a as [|c r]; [congruence|]; intros _ H; simpl in *.
  destruct (Text.is_space c); [|reflexivity].
  pose proof (lstrip_length r) as L; rewrite H in L; simpl in L; lia.
Qed.

Lemma rstrip_app (a b : string) :
  b <> "" -> Text.rstrip b = b -> Text.rstrip (a ++ b) = a ++ b.
Proof.
  intros Hb H; induction a as [|c r IH]; simpl; [exact H|].
  rewrite IH. destruct (String.eqb (r ++ b) "") eqn:E.
  - apply String.eqb_eq in E. destruct r, b; simpl in E; congruence.
  - rewrite andb_false_r; reflexivity.
Qed.

Lemma rstrip_cons (c : ascii) (s : string) :
  Text.is_space c = false -> Text.rstrip s = s -> Text.rstrip (String c s) = String c s.
Proof. intros Hc H; simpl; rewrite H, Hc; reflexivity. Qed.


Lemma prefix_inv (p s : string) : String.prefix p s = true -> exists x, s = p ++ x.
Proof.
  revert s; induction p as [|c r IH]; intros s H; simpl.
  - exists s; reflexivity.
  - destruct s as [|d t]; simpl in H; [discriminate|].
    destruct (ascii_dec c d); [|discriminate]. subst.
    destruct (IH t H) as [x ->]; exists x; reflexivity.
Qed.

Lemma substring_app_l (a b : string) : String.substring 0 (String.length a) (a ++ b) = a.
Proof. induction a; simpl; [destruct b; reflexivity|congruence]. Qed.

Lemma substring_full (b : string) : String.substring 0 (String.length b) b = b.
Proof. pose proof (substring_app_l b "") as H; rewrite string_app_nil_r in H; exact H. Qed.

Lemma substring_app_r (a b : string) (m : nat) :
  String.substring (String.length a) m (a ++ b) = String.substring 0 m b.
Proof. induction a; simpl; [reflexivity|exact IHa]. Qed.

Lemma length_app (a b : string) : String.length (a ++ b) = (String.length a + String.length b)%nat.
Proof. induction a; simpl; congruence. Qed.

Lemma strip_prefix_app (p x : string) : Text.strip_prefix p (p ++ x) = Some x.
Proof.
  unfold Text.strip_prefix; rewrite prefix_app, length_app.
  replace (String.length p + String.length x - String.length p)%nat with (String.length x) by lia.
  rewrite substring_app_r, substring_full; reflexivity.
Qed.

Lemma strip_prefix_inv (p s r : string) : Text.strip_prefix p s = Some r -> exists x, s = p ++ x.
Proof.
  unfold Text.strip_prefix; destruct (String.prefix p s) eqn:E; [|discriminate].
  intros _; exact (prefix_inv p s E).
Qed.


Lemma no_slash_cons (c : ascii) (s : string) : no_slash (String c s) -> c <> "/"%char /\ no_slash s.
Proof. intros H; split; [intros E; apply (H 0%nat); simpl; congruence|intros i; exact (H (S i))]. Qed.

Lemma split_slash_aux_app (acc o r : string) :
  no_slash o -> Str.split_slash_aux acc (o ++ String "/" r) = (acc ++ o) :: Str.split_slash_aux "" r.
Proof.
  revert acc; induction o as [|c t IH]; intros acc H; simpl.
  - rewrite string_app_nil_r; reflexivity.
  - apply no_slash_cons in H as [Hc H].
    destruct (Ascii.eqb c "/") eqn:E; [apply Ascii.eqb_eq in E; congruence|].
    rewrite IH by exact H. rewrite string_app_assoc; reflexivity.
Qed.

Lemma split_slash_aux_single (acc o : string) :
  no_slash o -> Str.split_slash_aux acc o = [acc ++ o].
Proof.
  revert acc; induction o as [|c t IH]; intros acc H; simpl.
  - rewrite string_app_nil_r; reflexivity.
  - apply no_slash_cons in H as [Hc H].
    destruct (Ascii.eqb c "/") eqn:E; [apply Ascii.eqb_eq in E; congruence|].
    rewrite IH by exact H. rewrite string_app_assoc; reflexivity.
Qed.

Lemma no_newline_app (a b : string) : Text.no_newline (a ++ b) = Text.no_newline a && Text.no_newline b.
Proof. induction a; simpl; [reflexivity|rewrite IHa, andb_assoc; reflexivity]. Qed.

Lemma split_slash_no_newline (acc u : string) :
  Text.no_newline acc = true -> Text.no_newline u = true ->
  forallb Text.no_newline (Str.split_slash_aux acc u) = true.
Proof.
  revert acc; induction u as [|c t IH]; intros acc Ha Hu; simpl.
  - rewrite Ha; reflexivity.
  - simpl in Hu; apply andb_prop in Hu as [Hc Ht].
    destruct (Ascii.eqb c "/"); simpl.
    + rewrite Ha; simpl; apply IH; [reflexivity|exact Ht].
    + apply IH; [|exact Ht]. rewrite no_newline_app, Ha; simpl; rewrite Hc; reflexivity.
Qed.

Lemma no_slash_app (a b : string) : no_slash a -> no_slash b -> no_slash (a ++ b).
Proof.
  intros Ha Hb; induction a as [|c t IH]; [exact Hb|].
  apply no_slash_cons in Ha as [Hc Ht]. intros [|i]; simpl; [congruence|exact (IH Ht i)].
Qed.

Lemma no_slash_git : no_slash ".git".
Proof. intros [|[|[|[|i]]]]; simpl; try congruence; destruct i; simpl; congruence. Qed.

Lemma ends_with_git_app (n : string) : Text.ends_with_git (n ++ ".git") = true.
Proof.
  unfold Text.ends_with_git; rewrite length_app; change (String.length ".git") with 4%nat.
  replace (String.length n + 4 - 4)%nat with (String.length n) by lia.
  rewrite substring_app_r.
  assert (E : (4 <=? String.length n + 4)%nat = true) by (apply Nat.leb_le; lia).
  rewrite E; reflexivity.
Qed.

(** X9: [parse_repo_input] reads a GitHub URL [http(s)://github.com/owner/
    name.git], with or without a trailing path after a ["/"], as
    [(owner, name)] with one [.git] suffix removed from [name]. *)
Theorem parse_github_url (secure slash : bool) (owner name u : string) :
  owner <> "" -> name <> "" -> no_slash owner -> no_slash name ->
  Text.no_newline u = true -> Text.rstrip u = u ->
  Text.parse_repo_input
    ((if secure then "https://github.com/" else "http://github.com/")
     ++ owner ++ "/" ++ name ++ ".git" ++ (if slash then "/" ++ u else ""))
  = Some (owner, Text.removesuffix_git name).
Proof.
  intros Ho Hn So Sn Nu Ru.
  set (tl := if slash then "/" ++ u else "").
  set (rest := owner ++ "/" ++ name ++ ".git" ++ tl).
  assert (Hstrip : forall p, p <> "" -> Text.lstrip p = p -> Text.strip (p ++ rest) = p ++ rest).
  { intros p Hp Lp. unfold Text.strip. rewrite lstrip_app by assumption.
    unfold rest; rewrite <- !string_app_assoc. 
    destruct slash; unfold tl.
    - apply rstrip_app; [discriminate|]. apply rstrip_cons; [reflexivity|exact Ru].
    - rewrite string_app_nil_r. apply rstrip_app; [discriminate|reflexivity]. }
  assert (Hm : Text.match_github_url rest = Some (owner, name)).
  { assert (Hseg : String.eqb (name ++ ".git") "" = false) by (destruct name; reflexivity).
    assert (Hlen : (4 <? String.length (name ++ ".git"))%nat = true).
    { apply Nat.ltb_lt; rewrite length_app; destruct name; [congruence|simpl; lia]. }
    assert (Hsub : String.substring 0 (String.length (name ++ ".git") - 4) (name ++ ".git") = name).
    { rewrite length_app; change (String.length ".git") with 4%nat.
      replace (String.length name + 4 - 4)%nat with (String.length name) by lia.
      apply substring_app_l. }
    assert (Hown : String.eqb owner "" = false) by (apply String.eqb_neq; exact Ho).
    unfold Text.match_github_url, Str.split_slash, rest.
    change ("/" ++ name ++ ".git" ++ tl) with (String "/" (name ++ ".git" ++ tl)).
    rewrite split_slash_aux_app by exact So.
    destruct slash; unfold tl.
    - rewrite <- string_app_assoc.
      change ("/" ++ u) with (String "/" u).
      rewrite split_slash_aux_app by (apply no_slash_app; [exact Sn|exact no_slash_git]).
      cbn [String.append].
      rewrite split_slash_no_newline by (reflexivity || exact Nu).
      rewrite Hown, Hseg, Hlen, ends_with_git_app, Hsub; reflexivity.
    - rewrite string_app_nil_r.
      rewrite split_slash_aux_single by (apply no_slash_app; [exact Sn|exact no_slash_git]).
      cbn [String.append].
      rewrite Hown, Hseg, Hlen, ends_with_git_app, Hsub; reflexivity. }
  unfold Text.parse_repo_input. destruct secure.
  - rewrite Hstrip by (discriminate || reflexivity).
    rewrite strip_prefix_app, Hm; reflexivity.
  - rewrite Hstrip by (discriminate || reflexivity).
    replace (Text.strip_prefix "https://github.com/" ("http://github.com/" ++ rest)) with (@None string)
      by reflexivity.
    rewrite strip_prefix_app, Hm; reflexivity.
Qed.

Lemma no_slash_app_inv (a b : string) : no_slash (a ++ b) -> no_slash a /\ no_slash b.
Proof.
  induction a as [|c t IH]; simpl; intros H.
  - split; [intros [|i]; discriminate|exact H].
  - apply no_slash_cons in H as [Hc H]. destruct (IH H) as [Ht Hb]. split; [|exact Hb].
    intros [|i]; simpl; [congruence|exact (Ht i)].
Qed.

Lemma lstrip_suffix (s : string) : exists pre, s = pre ++ Text.lstrip s.
Proof.
  induction s as [|c t IH]; simpl; [exists ""; reflexivity|].
  destruct (Text.is_space c).
  - destruct IH as [pre E]. exists (String c pre). simpl; congruence.
  - exists ""; reflexivity.
Qed.

Lemma rstrip_prefix (s : string) : exists suf, s = Text.rstrip s ++ suf.
Proof.
  induction s as [|c t IH]; simpl; [exists ""; reflexivity|].
  destruct IH as [suf E].
  destruct (Text.is_space c && String.eqb (Text.rstrip t) ""); simpl.
  - exists (String c t); reflexivity.
  - exists suf; simpl; congruence.
Qed.

Lemma no_slash_strip (s : string) : no_slash s -> no_slash (Text.strip s).
Proof.
  intros H; unfold Text.strip.
  destruct (lstrip_suffix s) as [pre E1]. rewrite E1 in H. apply no_slash_app_inv in H as [_ H].
  destruct (rstrip_prefix (Text.lstrip s)) as [suf E2]. rewrite E2 in H.
  apply no_slash_app_inv in H as [H _]; exact H.
Qed.

Lemma github_prefix_slash (secure : bool) (x : string) :
  ~ no_slash ((if secure then "https://github.com/" else "http://github.com/") ++ x).
Proof.
  intros H. destruct secure; [apply (H 6%nat)|apply (H 5%nat)]; reflexivity.
Qed.

Lemma strip_prefix_github_none (s : string) :
  (forall x, s <> "https://github.com/" ++ x) -> (forall x, s <> "http://github.com/" ++ x) ->
  Text.strip_prefix "https://github.com/" s = None /\ Text.strip_prefix "http://github.com/" s = None.
Proof.
  intros H1 H2; split;
  [destruct (Text.strip_prefix "https://github.com/" s) eqn:E|destruct (Text.strip_prefix "http://github.com/" s) eqn:E];
  try reflexivity; apply strip_prefix_inv in E as [x E]; [exfalso; exact (H1 x E)|exfalso; exact (H2 x E)].
Qed.

(** X10: an input without ["/"] is refused by [parse_repo_input] (it
    prints the error and exits): neither pattern matches it. *)
Theorem parse_without_slash_rejected (s : string) :
  no_slash s -> Text.parse_repo_input s = None.
Proof.
  intros H. pose proof (no_slash_strip s H) as Hs.
  unfold Text.parse_repo_input.
  destruct (strip_prefix_github_none (Text.strip s)) as [-> ->].
  - intros x E; rewrite E in Hs; exact (github_prefix_slash true x Hs).
  - intros x E; rewrite E in Hs; exact (github_prefix_slash false x Hs).
  - unfold Str.split_slash; rewrite split_slash_aux_single by exact Hs; reflexivity.
Qed.

Lemma split_slash_github (secure : bool) (x : string) :
  exists l, Str.split_slash ((if secure then "https://github.com/" else "http://github.com/") ++ x)
            = ("http" ++ (if secure then "s:" else ":")) :: "" :: "github.com" :: l.
Proof. destruct secure; eexists; reflexivity. Qed.

(** X11: [parse_repo_input] reads [owner/name] as the pair [(owner, name)]
    when both parts are nonempty and hold no ["/"] (and the input has no
    spaces around it that [strip] would remove). *)
Theorem parse_owner_name (owner name : string) :
  owner <> "" -> name <> "" -> no_slash owner -> no_slash name ->
  Text.lstrip owner = owner -> Text.rstrip name = name ->
  Text.parse_repo_input (owner ++ "/" ++ name) = Some (owner, name).
Proof.
  intros Ho Hn So Sn Lo Rn.
  assert (Hsplit : Str.split_slash (owner ++ "/" ++ name) = [owner; name]).
  { unfold Str.split_slash. change ("/" ++ name) with (String "/" name).
    rewrite split_slash_aux_app by exact So. rewrite split_slash_aux_single by exact Sn.
    reflexivity. }
  assert (Hstrip : Text.strip (owner ++ "/" ++ name) = owner ++ "/" ++ name).
  { unfold Text.strip. rewrite lstrip_app by assumption.
    apply rstrip_app; [discriminate|]. apply rstrip_cons; [reflexivity|exact Rn]. }
  unfold Text.parse_repo_input; rewrite Hstrip.
  destruct (strip_prefix_github_none (owner ++ "/" ++ name)) as [-> ->].
  - intros x E. destruct (split_slash_github true x) as [l El]. rewrite <- E, Hsplit in El. discriminate.
  - intros x E. destruct (split_slash_github false x) as [l El]. rewrite <- E, Hsplit in El. discriminate.
  - rewrite Hsplit. replace (String.eqb owner "") with false by (symmetry; apply String.eqb_neq; exact Ho).
    replace (String.eqb name "") with false by (symmetry; apply String.eqb_neq; exact Hn). reflexivity.
Qed.


Lemma file_lines_aux_app (acc a b : string) (c : ascii) :
  Text.line_end c = true ->
  Text.file_lines_aux acc (a ++ String c b) = (Text.file_lines_aux acc a ++ Text.file_lines_aux "" b)%list.
Proof.
  intros Hc; revert acc; induction a as [|d t IH]; intros acc; simpl.
  - rewrite Hc; reflexivity.
  - destruct (Text.line_end d); simpl; rewrite IH; reflexivity.
Qed.

Lemma file_lines_aux_one (acc s : string) :
  one_line s -> Text.file_lines_aux acc s = [acc ++ s].
Proof.
  revert acc; induction s as [|d t IH]; intros acc H; simpl.
  - rewrite string_app_nil_r; reflexivity.
  - rewrite (H 0%nat d eq_refl). rewrite IH by (intros i c E; exact (H (S i) c E)).
    rewrite string_app_assoc; reflexivity.
Qed.

Lemma load_env_config_snoc (text line : string) :
  one_line line ->
  load_env_config (Some (text ++ String (ascii_of_nat 10) line))
  = config_line (load_env_config (Some text)) line.
Proof.
  intros H; unfold load_env_config, Text.file_lines.
  rewrite file_lines_aux_app by reflexivity. rewrite (file_lines_aux_one "" line H).
  rewrite fold_left_app; reflexivity.
Qed.

Lemma one_line_app (a b : string) : one_line a -> one_line b -> one_line (a ++ b).
Proof.
  intros Ha Hb; induction a as [|d t IH]; [exact Hb|].
  intros [|i] c E; simpl in E.
  - exact (Ha 0%nat c E).
  - exact (IH (fun j => Ha (S j)) i c E).
Qed.

Lemma one_line_token_key : one_line "GITHUB_TOKEN=".
Proof.
  intros i c E. repeat (destruct i as [|i]; [simpl in E; injection E as <-; reflexivity|]).
  simpl in E; discriminate.
Qed.

(** X12: in the [.env] file a later [GITHUB_TOKEN=...] line overrides every
    earlier one: appending such a line sets the token to its value and
    keeps the other two settings. *)
Theorem env_last_assignment_wins (text v : string) :
  one_line v -> Text.lstrip v = v -> Text.rstrip v = v ->
  load_env_config (Some (text ++ String (ascii_of_nat 10) ("GITHUB_TOKEN=" ++ v)))
  = let c := load_env_config (Some text) in
    mkEnvConfig (GITHUB_USER c) v (CLONE_BASE_PATH c).
Proof.
  intros Hv Lv Rv. rewrite load_env_config_snoc by exact (one_line_app _ _ one_line_token_key Hv).
  set (c := load_env_config (Some text)).
  assert (Hs : Text.strip ("GITHUB_TOKEN=" ++ v) = "GITHUB_TOKEN=" ++ v).
  { unfold Text.strip. rewrite lstrip_app by (discriminate || reflexivity).
    destruct v as [|d t].
    - reflexivity.
    - apply rstrip_app; [discriminate|exact Rv]. }
  unfold config_line; rewrite Hs.
  replace (String.eqb ("GITHUB_TOKEN=" ++ v) "") with false by reflexivity.
  replace (Str.contains "=" ("GITHUB_TOKEN=" ++ v)) with true by (destruct v; reflexivity).
  replace (String.prefix "#" ("GITHUB_TOKEN=" ++ v)) with false by reflexivity.
  replace (Text.split_eq ("GITHUB_TOKEN=" ++ v)) with ("GITHUB_TOKEN", v) by reflexivity.
  cbn iota beta. replace (Text.strip v) with v by (unfold Text.strip; rewrite Lv, Rv; reflexivity).
  reflexivity.
Qed.

(** X13: a line of the [.env] file that starts with ["#"] changes nothing,
    even when it holds an assignment. *)
Theorem env_comment_ignored (text cmt : string) :
  one_line ("#" ++ cmt) ->
  load_env_config (Some (text ++ String (ascii_of_nat 10) ("#" ++ cmt))) = load_env_config (Some text).
Proof.
  intros H. rewrite load_env_config_snoc by exact H.
  unfold config_line. replace (String.prefix "#" (Text.strip ("#" ++ cmt))) with true
    by (unfold Text.strip; cbn [Text.lstrip Text.rstrip String.append];
        change (Text.is_space "#") with false; cbn iota; cbn [Text.rstrip];
        change (Text.is_space "#") with false; cbn [andb]; destruct (Text.rstrip cmt); reflexivity).
  rewrite andb_false_r; reflexivity.
Qed.

(** ** Evaluations on the example world *)

Lemma nonstructural_failure_witness :
  (sync_repository_update W_auth "acme/widgets" "acme" "widgets" W_lp "main" ""
     "1111111aaaa" "2222222bbbb" (mkSt 0 None [])
   = (Ret (mkResult "error" ("pull 실패: " ++ AUTH_MSG)), mkSt 1 None [ev_pull; ev_status])
   /\ exists new, trace (mkSt 1 None [ev_pull; ev_status])
                  = (trace (mkSt 0 None []) ++ new)%list /\ forallb quiet new = true)
  /\ (auto_recover_and_pull W_auth "acme/widgets" W_lp "main" "" (mkSt 0 None [])
      = (Ret (false, AUTH_MSG), mkSt 1 None [ev_abort; ev_pull; ev_status])
      /\ exists new, trace (mkSt 1 None [ev_abort; ev_pull; ev_status])
                     = (trace (mkSt 0 None []) ++ new)%list /\ forallb quiet new = true)
  /\ (gui_auto_recover_and_pull W_auth "acme/widgets" W_lp "main" "" (mkSt 0 None [])
      = (Ret (false, AUTH_MSG), mkSt 1 None [ev_status_sb; ev_status; ev_abort; ev_pull; ev_status])
      /\ exists new, trace (mkSt 1 None [ev_status_sb; ev_status; ev_abort; ev_pull; ev_status])
                     = (trace (mkSt 0 None []) ++ new)%list /\ forallb quiet new = true)
  /\ (single_act W_auth "acme/widgets" W_lp "main" "" 1 0 (mkSt 0 None [])
      = (Ret tt, mkSt 1 None [ev_pull; ev_status])
      /\ exists new, trace (mkSt 1 None [ev_pull; ev_status])
                     = (trace (mkSt 0 None []) ++ new)%list /\ forallb quiet new = true).
Proof.
  destruct (nonstructural_failure_no_destructive_step W_auth "acme/widgets" "acme" "widgets"
              W_lp "main" "" "1111111aaaa" "2222222bbbb" 1 0 AUTH_MSG
              (mkSt 0 None []) (mkSt 1 None [ev_pull]) (mkSt 1 None [ev_pull; ev_status]))
    as [H1 _].
  destruct (nonstructural_failure_no_destructive_step W_auth "acme/widgets" "acme" "widgets"
              W_lp "main" "" "1111111aaaa" "2222222bbbb" 1 0 AUTH_MSG
              (mkSt 0 None []) (mkSt 1 None [ev_abort; ev_pull]) (mkSt 1 None [ev_abort; ev_pull; ev_status]))
    as [_ [H2 _]].
  destruct (nonstructural_failure_no_destructive_step W_auth "acme/widgets" "acme" "widgets"
              W_lp "main" "" "1111111aaaa" "2222222bbbb" 1 0 AUTH_MSG
              (mkSt 0 None []) (mkSt 1 None [ev_status_sb; ev_status; ev_abort; ev_pull])
              (mkSt 1 None [ev_status_sb; ev_status; ev_abort; ev_pull; ev_status]))
    as [_ [_ [H3 _]]].
  destruct (nonstructural_failure_no_destructive_step W_auth "acme/widgets" "acme" "widgets"
              W_lp "main" "" "1111111aaaa" "2222222bbbb" 1 0 AUTH_MSG
              (mkSt 0 None []) (mkSt 1 None [ev_pull]) (mkSt 1 None [ev_pull; ev_status]))
    as [_ [_ [_ H4]]].
  split; [ | split; [ | split ] ].
  - apply H1; vm_compute; reflexivity.
  - apply H2; vm_compute; reflexivity.
  - apply H3; vm_compute; reflexivity.
  - apply H4; [ discriminate | vm_compute; reflexivity .. ].
Defined.

(** C2: the command-line recovery reaches the hard reset without any backup.
    With every pull failing on unmerged files, [auto_recover_and_pull] of
    gitsync.py runs [git reset --hard origin/main]; no backup is attempted
    before it, or at all (the GUI's recovery, by contrast, always attempts
    one first: [gui_recovery_backup_before_reset]). *)
Theorem cli_recovery_resets_without_backup :
  let t := trace (snd (auto_recover_and_pull W_conflict "acme/widgets" W_lp "main" ""
                                             (mkSt 0 None []))) in
  existsb is_reset t = true /\ existsb is_backup t = false /\ backup_before_reset t = false.
Proof. vm_compute; auto. Qed.

(** C5: on the output of a pull refused for unrelated histories, the
    classifier of gitsync.py answers [False], while the one of
    gitsync_gui.py answers [True]. *)
Theorem unrelated_histories_classification :
  is_merge_conflict_error UNRELATED_MSG = false
  /\ is_merge_conflict_error_gui UNRELATED_MSG = true.
Proof. vm_compute; auto. Qed.

(** C5, in context: in a clean working tree a pull refused for unrelated
    histories makes the command-line update report an error without
    entering recovery. *)
Lemma cli_unrelated_histories_no_recovery :
  fst (sync_repository_update (ex_env 5 UNRELATED_MSG "1" "1") "acme/widgets" "acme" "widgets"
         W_lp "main" "" "1111111aaaa" "2222222bbbb" (mkSt 0 None []))
  = Ret (mkResult "error" ("pull 실패: " ++ UNRELATED_MSG)).
Proof. vm_compute; reflexivity. Qed.



(** C4, on an example: [(behind, ahead) = (1, 1)] (diverged) and
    [(1, 0)] (behind) receive the same record in
    [_check_selected_updates_thread]. *)
Lemma diverged_classified_as_behind :
  classify_selected 1 1 "1111111aaaa" "2222222bbbb"
  = classify_selected 1 0 "1111111aaaa" "2222222bbbb".
Proof. reflexivity. Qed.

(** C4 (as the code has it): the classification of
    [_check_selected_updates_thread] has three outcomes: [(0, 0)] is
    up to date; [behind = 0], [ahead > 0] is an update with an [ahead] count;
    every [behind > 0] is an update with a [behind] count, whatever [ahead]
    is, so a diverged pair is classified as behind. *)
Theorem classify_three_shapes :
  forall (behind ahead : N) local remote,
    (behind = 0%N /\ ahead = 0%N
     /\ classify_selected behind ahead local remote
        = mkCheck "up-to-date" None (Some local) (Some remote) None None)
    \/ (behind = 0%N /\ (0 < ahead)%N
       /\ classify_selected behind ahead local remote
          = mkCheck "update-available" None (Some local) (Some remote) (Some ahead) None)
    \/ ((0 < behind)%N
       /\ classify_selected behind ahead local remote
          = mkCheck "update-available" None (Some local) (Some remote) None (Some behind)
       /\ classify_selected behind ahead local remote
          = classify_selected behind 0 local remote).
Proof.
  intros behind ahead local remote; unfold classify_selected.
  destruct (N.eqb_spec behind 0) as [->|Hb].
  - destruct (N.eqb_spec ahead 0) as [->|Ha]; [ left; auto | ].
    right; left; cbn [andb].
    assert (E : (0 <? ahead)%N = true) by (apply N.ltb_lt; lia).
    rewrite E; repeat split; lia.
  - right; right; cbn [andb]; repeat split; lia.
Qed.

(** C6, on an example: [sync_all] of gitsync.py fetches and pulls
    [acme/gadgets], whose ["auto_update"] is [False], and reports it
    [updated]. *)
Lemma sync_all_updates_disabled_record :
  nth_error (get_or [] (subscriptions ex_registry)) 1 = Some (ex_sub "acme/gadgets" (Some false))
  /\ let '(r, s') := sync_all (ex_env 0 "" "1" "1") "" (mkSt 0 (Some "REG") []) in
     r = Ret [("acme/widgets", mkResult "updated" "1111111 → 2222222");
              ("acme/gadgets", mkResult "updated" "1111111 → 2222222")]
     /\ existsb (git_in "/repos/acme/gadgets" "fetch") (trace s') = true
     /\ existsb (git_in "/repos/acme/gadgets" "pull") (trace s') = true.
Proof. split; [ reflexivity | vm_compute; auto ]. Qed.

Lemma check_pass_skips_disabled_witness :
  check_one (ex_env 0 "" "1" "1") "" (ex_sub "acme/gadgets" (Some false)) (mkSt 0 None [])
    = (Ret ("acme/gadgets", SKIPPED), mkSt 0 None [])
  /\ auto_update_targets (get_or [] (subscriptions ex_registry)) [("acme/gadgets",
       mkCheck "update-available" None None None None None)]
     = (auto_update_targets [ex_sub "acme/widgets" (Some true)]
          [("acme/gadgets", mkCheck "update-available" None None None None None)]
        ++ auto_update_targets []
          [("acme/gadgets", mkCheck "update-available" None None None None None)])%list
  /\ sync_each (ex_env 0 "" "1" "1")
       ([ex_sub "acme/widgets" (Some true)] ++ [ex_sub "acme/gadgets" (Some false)]) ""
     = sync_each (ex_env 0 "" "1" "1")
       ([ex_sub "acme/widgets" (Some true)] ++ [set_auto_update true (ex_sub "acme/gadgets" (Some false))]) "".
Proof.
  destruct (check_pass_skips_disabled (ex_env 0 "" "1" "1") "" (ex_sub "acme/gadgets" (Some false))
              eq_refl) as [H1 [_ [H3 H4]]].
  split; [ apply H1 | split ];
    [ apply (H3 [ex_sub "acme/widgets" (Some true)] []) | apply (H4 [ex_sub "acme/widgets" (Some true)] []) ].
Defined.

Lemma token_url_restored_witness :
  (exists ok out w,
     pull_with_token W_auth "acme/widgets" W_lp "main" TOKEN (mkSt 0 None [])
     = (Ret (ok, out), mkSt w None
          (trace (mkSt 0 None []) ++ token_window W_lp TOKEN "acme" "widgets" ["pull"; "origin"; "main"])))
  /\ (exists ok out w,
     fetch_with_token W_auth "acme/widgets" W_lp TOKEN (mkSt 0 None [])
     = (Ret (ok, out), mkSt w None
          (trace (mkSt 0 None []) ++ token_window W_lp TOKEN "acme" "widgets" ["fetch"; "origin"])))
  /\ (forall init,
     origin_url init W_lp
       (trace (mkSt 0 None []) ++ token_window W_lp TOKEN "acme" "widgets" ["pull"; "origin"; "main"])
     = clean_url "acme" "widgets").
Proof.
  destruct (token_url_restored W_auth "acme/widgets" W_lp "main" TOKEN "acme" "widgets"
              (mkSt 0 None []) ltac:(discriminate) ltac:(vm_compute; reflexivity))
    as [H1 [H2 [_ H4]]].
  split; [ exact H1 | split; [ exact H2 | intros init; apply H4 ] ].
Defined.

Lemma toggle_keeps_grouping_witness :
  grouped (toggle_at 1 (ex_sub "acme/gadgets" (Some false)) ex_subs) = true
  /\ (exists j, nth_error (toggle_at 1 (ex_sub "acme/gadgets" (Some false)) ex_subs) j
                  = Some (ex_sub "acme/gadgets" (Some true))
                /\ remove_nth j (toggle_at 1 (ex_sub "acme/gadgets" (Some false)) ex_subs)
                   = remove_nth 1 ex_subs)
  /\ toggle_auto_update toggle_env ex_subs "acme/gadgets" (mkSt 0 (Some "REG") [])
     = (Ret (toggle_at 1 (ex_sub "acme/gadgets" (Some false)) ex_subs),
        mkSt 0 (Some "DUMP") [EvSave "DUMP"]).
Proof.
  destruct (toggle_keeps_grouping toggle_env ex_subs "acme/gadgets" 1
              (ex_sub "acme/gadgets" (Some false)) ltac:(vm_compute; reflexivity)
              ltac:(vm_compute; reflexivity) ltac:(vm_compute; reflexivity))
    as [H1 [H2 [H3 _]]].
  split; [ exact H1 | split; [ exact H2 | ] ].
  apply (H3 (mkSt 0 (Some "REG") []) ex_registry); vm_compute; reflexivity.
Defined.

Lemma load_never_raises_witness :
  load_repos toggle_env (mkSt 0 (Some "{ not json") [])
    = (Ret (JDict empty_registry), mkSt 0 (Some "{ not json") [])
  /\ bind (load_repos toggle_env) get_subscriptions (mkSt 0 (Some "{ not json") [])
     = (Ret [], mkSt 0 (Some "{ not json") []).
Proof.
  apply (proj2 (load_never_raises toggle_env) (mkSt 0 (Some "{ not json") [])).
  right; exists "{ not json"; split; vm_compute; reflexivity.
Defined.

Lemma remove_subscription_atomic_witness :
  remove_subscription toggle_env "acme" "gadgets" (mkSt 0 (Some "REG") [])
    = (Ret true, mkSt 0 (Some "DUMP") [EvSave "DUMP"])
  /\ remove_subscription toggle_env "acme" "sprockets" (mkSt 0 (Some "REG") [])
     = (Ret false, mkSt 0 (Some "REG") []).
Proof.
  destruct (remove_subscription_atomic toggle_env "acme" "gadgets" (mkSt 0 (Some "REG") [])
              ex_registry ltac:(vm_compute; reflexivity)) as [H1 _].
  destruct (remove_subscription_atomic toggle_env "acme" "sprockets" (mkSt 0 (Some "REG") [])
              ex_registry ltac:(vm_compute; reflexivity)) as [_ H2].
  split; [ apply H1 | apply H2 ]; vm_compute; reflexivity.
Defined.

(** ** Evaluations of the further properties on examples *)

Lemma no_slash_b_ok (s : string) : no_slash_b s = true -> no_slash s.
Proof.
  induction s as [|c r IH]; cbn; intros H i; [ destruct i; discriminate | ].
  apply andb_true_iff in H as [H1 H2].
  destruct i as [|i]; cbn; [ | exact (IH H2 i) ].
  intros E; injection E as ->; discriminate H1.
Qed.

Lemma one_line_b_ok (s : string) : one_line_b s = true -> one_line s.
Proof.
  induction s as [|c r IH]; cbn; intros H i d E; [ destruct i; discriminate | ].
  apply andb_true_iff in H as [H1 H2].
  destruct i as [|i]; cbn in E; [ | exact (IH H2 i d E) ].
  injection E as <-; apply negb_true_iff; exact H1.
Qed.

Ltac solve_no_slash := apply no_slash_b_ok; reflexivity.
Ltac solve_one_line := apply one_line_b_ok; reflexivity.

Lemma parse_owner_name_witness :
  Text.parse_repo_input ("acme" ++ "/" ++ "widgets") = Some ("acme", "widgets").
Proof.
  apply (parse_owner_name "acme" "widgets");
    [ discriminate | discriminate | solve_no_slash | solve_no_slash | reflexivity | reflexivity ].
Defined.

Lemma parse_github_url_witness :
  Text.parse_repo_input
    ((if true then "https://github.com/" else "http://github.com/")
     ++ "acme" ++ "/" ++ "widgets" ++ ".git" ++ (if true then "/" ++ "tree/main" else ""))
  = Some ("acme", Text.removesuffix_git "widgets").
Proof.
  apply (parse_github_url true true "acme" "widgets" "tree/main");
    [ discriminate | discriminate | solve_no_slash | solve_no_slash | reflexivity | reflexivity ].
Defined.

Lemma parse_without_slash_rejected_witness :
  Text.parse_repo_input "acme" = None.
Proof. apply (parse_without_slash_rejected "acme"); solve_no_slash. Defined.

Lemma env_last_assignment_wins_witness :
  load_env_config (Some ("GITHUB_USER=me" ++ String (ascii_of_nat 10) ("GITHUB_TOKEN=" ++ "new")))
  = let c := load_env_config (Some "GITHUB_USER=me") in
    mkEnvConfig (GITHUB_USER c) "new" (CLONE_BASE_PATH c).
Proof. apply (env_last_assignment_wins "GITHUB_USER=me" "new"); [ solve_one_line | reflexivity | reflexivity ]. Defined.

Lemma env_comment_ignored_witness :
  load_env_config (Some ("GITHUB_TOKEN=abc" ++ String (ascii_of_nat 10) ("#" ++ "GITHUB_TOKEN=old")))
  = load_env_config (Some "GITHUB_TOKEN=abc").
Proof. apply (env_comment_ignored "GITHUB_TOKEN=abc" "GITHUB_TOKEN=old"); solve_one_line. Defined.

Lemma gui_sync_repos_counts_witness :
  (2 + 0 = Z.of_nat (length (filter (fun r => if lookup_sub ex_subs r then true else false)
                                   ["acme/widgets"; "nope"; "acme/gadgets"])))%Z
  /\ (0 <= 2)%Z /\ (0 <= 0)%Z.
Proof.
  apply (gui_sync_repos_counts toggle_env ex_subs TOKEN ["acme/widgets"; "nope"; "acme/gadgets"]
           (mkSt 0 None []) 2%Z 0%Z
           (snd (gui_sync_repos toggle_env ex_subs TOKEN ["acme/widgets"; "nope"; "acme/gadgets"]
                   (mkSt 0 None [])))).
  vm_compute; reflexivity.
Defined.

Lemma reclone_keeps_token_url_witness :
  exists new,
    trace (snd (reclone_selected_thread toggle_env ex_delete_tree ex_make_dirs ex_subs TOKEN
                  ["acme/widgets"] (mkSt 0 None [])))
    = (trace (mkSt 0 None []) ++ new)%list
    /\ forallb keeps_origin new = true /\ forallb (clone_with_token TOKEN) new = true.
Proof.
  apply (reclone_keeps_token_url toggle_env ex_delete_tree ex_make_dirs ex_subs TOKEN
           ["acme/widgets"] (mkSt 0 None [])
           (fst (reclone_selected_thread toggle_env ex_delete_tree ex_make_dirs ex_subs TOKEN
                   ["acme/widgets"] (mkSt 0 None []))));
    [ vm_compute; discriminate | apply surjective_pairing ].
Defined.

Lemma auto_update_needs_explicit_flag_witness :
  (exists sub, In sub ex_subs /\ row_id sub = "acme/widgets" /\ auto_update sub = Some true
               /\ exists c, result_of [("acme/widgets", mkCheck "update-available" None None None None None)]
                                      "acme/widgets" = Some c
                            /\ c_status c = "update-available")
  /\ (check_updates_thread toggle_env TOKEN ([ex_sub "acme/widgets" (Some true)] ++ [ex_sub "acme/b" None])
      = check_updates_thread toggle_env TOKEN
          ([ex_sub "acme/widgets" (Some true)] ++ [set_auto_update true (ex_sub "acme/b" None)])
      /\ auto_update_targets ([ex_sub "acme/widgets" (Some true)] ++ ex_sub "acme/b" None :: [])
           [("acme/b", mkCheck "update-available" None None None None None)]
         = (auto_update_targets [ex_sub "acme/widgets" (Some true)]
              [("acme/b", mkCheck "update-available" None None None None None)]
            ++ auto_update_targets []
              [("acme/b", mkCheck "update-available" None None None None None)])%list
      /\ auto_update_targets ([ex_sub "acme/widgets" (Some true)]
                              ++ set_auto_update true (ex_sub "acme/b" None) :: [])
           [("acme/b", mkCheck "update-available" None None None None None)]
         = (auto_update_targets [ex_sub "acme/widgets" (Some true)]
              [("acme/b", mkCheck "update-available" None None None None None)]
            ++ row_id (ex_sub "acme/b" None)
            :: auto_update_targets []
                 [("acme/b", mkCheck "update-available" None None None None None)])%list).
Proof.
  destruct (auto_update_needs_explicit_flag toggle_env) as [H1 H2].
  destruct (H2 (ex_sub "acme/b" None) eq_refl) as [Hc Ht].
  destruct (Ht [ex_sub "acme/widgets" (Some true)] []
              [("acme/b", mkCheck "update-available" None None None None None)]) as [Ha Hb].
  split; [ | split; [ apply (Hc TOKEN [ex_sub "acme/widgets" (Some true)] []) | split; [ exact Ha | ] ] ].
  - apply (H1 ex_subs [("acme/widgets", mkCheck "update-available" None None None None None)]
              "acme/widgets").
    vm_compute; left; reflexivity.
  - apply (Hb (mkCheck "update-available" None None None None None)); vm_compute; reflexivity.
Defined.

Lemma reorder_keeps_records_grouped_witness :
  let l := [ex_sub "acme/c" (Some false); ex_sub "acme/a" (Some true); ex_sub "acme/b" None] in
  let out := [ex_sub "acme/c" (Some false); ex_sub "acme/b" None; ex_sub "acme/a" (Some true)] in
  Permutation out ex_three /\ (grouped l = true -> out = ex_three \/ grouped out = true).
Proof.
  apply (reorder_keeps_records_grouped toggle_env ex_three
           [ex_sub "acme/c" (Some false); ex_sub "acme/a" (Some true); ex_sub "acme/b" None]
           "acme/b" "acme/a" (mkSt 0 (Some "REG") [])
           [ex_sub "acme/c" (Some false); ex_sub "acme/b" None; ex_sub "acme/a" (Some true)]
           (snd (reorder_items toggle_env ex_three ["acme/c"; "acme/a"; "acme/b"] "acme/b" "acme/a"
                   (mkSt 0 (Some "REG") [])))).
  - exact (Permutation_cons_append [ex_sub "acme/a" (Some true); ex_sub "acme/b" None]
                                   (ex_sub "acme/c" (Some false))).
  - intros x Hx; repeat (destruct Hx as [<- | Hx]; [ vm_compute; reflexivity | ]); destruct Hx.
  - vm_compute; reflexivity.
Defined.

Lemma malformed_name_stops_the_run_witness :
  (forall reg, load_repos toggle_env (mkSt 0 None []) = (Ret (JDict reg), mkSt 0 None []) ->
     subscriptions reg = Some [ex_bad_sub] ->
     sync_all toggle_env TOKEN (mkSt 0 None []) = (Exc "ValueError", mkSt 0 None []))
  /\ (auto_flag ex_bad_sub = true ->
      check_and_auto_update_thread toggle_env [ex_bad_sub] TOKEN (mkSt 0 None [])
      = (Exc "ValueError", mkSt 0 None []))
  /\ (forall subs names, lookup_sub subs (row_id ex_bad_sub) = Some ex_bad_sub ->
      gui_sync_repos toggle_env subs TOKEN (row_id ex_bad_sub :: names) (mkSt 0 None [])
      = (Exc "ValueError", mkSt 0 None [])).
Proof.
  apply (malformed_name_stops_the_run toggle_env ex_bad_sub [] TOKEN (mkSt 0 None []));
    [ reflexivity | reflexivity | vm_compute; discriminate ].
Defined.

Lemma remove_repo_keeps_folders_witness :
  world (snd (remove_repo toggle_env ex_rmtree "acme/widgets" false (mkSt 0 (Some "REG") [])))
  = world (mkSt 0 (Some "REG") []).
Proof.
  apply (remove_repo_keeps_folders toggle_env ex_rmtree "acme/widgets" (mkSt 0 (Some "REG") [])
           (fst (remove_repo toggle_env ex_rmtree "acme/widgets" false (mkSt 0 (Some "REG") []))));
    apply surjective_pairing.
Defined.

Lemma remove_repo_true_drops_every_record_witness :
  exists owner name reg,
    Text.parse_repo_input "acme/widgets" = Some (owner, name)
    /\ repos_file (snd (remove_repo toggle_env ex_rmtree "acme/widgets" true (mkSt 0 (Some "REG") [])))
       = Some (dump_json toggle_env reg)
    /\ (exists kept, subscriptions reg = Some kept
                     /\ forall x, In x kept -> repo_is (owner ++ "/" ++ name) x = false).
Proof.
  apply (remove_repo_true_drops_every_record toggle_env ex_rmtree "acme/widgets" true
           (mkSt 0 (Some "REG") [])).
  vm_compute; reflexivity.
Defined.
